(** * Collabstr dual-category scraper: a shallow embedding of
    [collabstr_dual_scraper.py] and the properties of its pipeline.

    Python [str] values are modelled by [string]; a character is a code
    point below 256 (Latin-1), and [str.lower], [str.strip] and the regex
    classes [\w], [\s], [\d] are CPython's restricted to that range.
    Selenium, the network and the file system are modelled by a [World]
    record of answers and by a state that is threaded through every call;
    Python exceptions are modelled by the [Raise] result.

    Assumptions.  The pauses of the source ([time.sleep]) and its logging
    are not modelled: the [delay] of the scraper is assumed to be a number
    that [time.sleep] accepts (not negative), so that no pause raises and
    a pause changes nothing that the properties look at.  [to_csv] is
    assumed to write its file without raising. *)

From Stdlib Require Import ZArith Ascii String DecimalString.
From stdpp Require Import base list strings gmap.

Local Open Scope string_scope.

(** ** Characters *)

Module Char.

Definition code (c : ascii) : nat := nat_of_ascii c.

Definition between (lo hi : nat) (c : ascii) : bool :=
  Nat.leb lo (code c) && Nat.leb (code c) hi.

Definition is_upper (c : ascii) : bool := between 65 90 c.
Definition is_lower (c : ascii) : bool := between 97 122 c.
Definition is_alpha (c : ascii) : bool := is_upper c || is_lower c.
Definition is_digit (c : ascii) : bool := between 48 57 c.
Definition is_alnum (c : ascii) : bool := is_alpha c || is_digit c.

(** [str.isspace] and the regex class [\s] below 256. *)
Definition is_space (c : ascii) : bool :=
  between 9 13 c || between 28 32 c || Nat.eqb (code c) 133
  || Nat.eqb (code c) 160.

(** The regex class [\w] (alphanumeric in the Unicode sense, or [_]). *)
Definition is_word (c : ascii) : bool :=
  is_alnum c || Nat.eqb (code c) 95
  || Nat.eqb (code c) 170 || between 178 179 c || Nat.eqb (code c) 181
  || between 185 186 c || between 188 190 c
  || between 192 214 c || between 216 246 c || between 248 255 c.

(** [str.lower] on one character: A-Z and the Latin-1 capitals. *)
Definition lower (c : ascii) : ascii :=
  if is_upper c || between 192 214 c || between 216 222 c
  then ascii_of_nat (code c + 32) else c.

Definition eqb (a b : ascii) : bool := Ascii.eqb a b.

End Char.

(** ** Python string operations *)

Module Str.

(** Truthiness of a [str]: non-empty. *)
Definition truthy (s : string) : bool :=
  match s with "" => false | _ => true end.

Definition len (s : string) : Z := Z.of_nat (String.length s).

Fixpoint lower (s : string) : string :=
  match s with
  | "" => ""
  | String c s' => String (Char.lower c) (lower s')
  end.

(** [s.lstrip(chars)] for a character predicate. *)
Fixpoint lstrip_by (p : ascii -> bool) (s : string) : string :=
  match s with
  | String c s' => if p c then lstrip_by p s' else s
  | "" => ""
  end.

(** [s.rstrip(chars)]: a suffix made only of stripped characters goes. *)
Fixpoint rstrip_by (p : ascii -> bool) (s : string) : string :=
  match s with
  | "" => ""
  | String c s' =>
      match rstrip_by p s' with
      | "" => if p c then "" else String c ""
      | t => String c t
      end
  end.

Definition strip (s : string) : string :=
  rstrip_by Char.is_space (lstrip_by Char.is_space s).

(** [pat in s]. *)
Fixpoint contains (pat s : string) : bool :=
  String.prefix pat s ||
  match s with
  | "" => false
  | String _ s' => contains pat s'
  end.

(** [s.split(sep)] for a one-character separator: never empty. *)
Fixpoint split (sep : ascii) (s : string) : list string :=
  match s with
  | "" => [""]
  | String c s' =>
      if Char.eqb c sep then "" :: split sep s'
      else match split sep s' with
           | h :: t => String c h :: t
           | [] => [String c ""]
           end
  end.

(** [l[-1]] of a list of strings that is known to be non-empty. *)
Definition last (l : list string) : string := List.last l "".

(** [sep.join(parts)]. *)
Fixpoint join (sep : string) (parts : list string) : string :=
  match parts with
  | [] => ""
  | [p] => p
  | p :: rest => p +:+ sep +:+ join sep rest
  end.

(** [str(i)] for a Python [int]. *)
Definition of_Z (i : Z) : string := NilZero.string_of_int (Z.to_int i).

(** [s[a:b]] for [0 <= a <= b]. *)
Definition slice (a b : nat) (s : string) : string :=
  String.substring a (b - a) s.

End Str.

(** ** A backtracking matcher for the regular expressions of the source

    The constructors cover what the three patterns of the source use:
    greedy and lazy repetition of a character class, literals, [\b], [$],
    alternation and one capturing group.  [rmatch] explores alternatives
    in the order of Python's [re]: a greedy repetition tries the longest
    run first, a lazy one the shortest. *)

Module Re.

Inductive regex : Type :=
| Eps
| Boundary
| End
| Lit (c : ascii)
| Seq (r1 r2 : regex)
| Alt (r1 r2 : regex)
| Greedy (p : ascii -> bool) (lo : nat)
| Lazy (p : ascii -> bool) (lo : nat)
| Group (r : regex).

(** A position in the subject: the character before it, its index, the
    text from it on, and the span of group 1 if it was closed. *)
Record pos : Type := Pos {
  prev : option ascii;
  idx : nat;
  rest : string;
  cap : option (nat * nat)
}.

Definition word_opt (c : option ascii) : bool :=
  match c with Some c => Char.is_word c | None => false end.

Definition next (s : string) : option ascii :=
  match s with String c _ => Some c | "" => None end.

(** [p{lo,}] greedy: consume while the class holds, then fall back. *)
Fixpoint greedy {A} (p : ascii -> bool) (k : pos -> option A) (lo : nat)
    (pv : option ascii) (i : nat) (cp : option (nat * nat)) (s : string)
    : option A :=
  let here := match lo with O => k (Pos pv i s cp) | S _ => None end in
  match s with
  | String c s' =>
      if p c then
        match greedy p k (Nat.pred lo) (Some c) (S i) cp s' with
        | Some a => Some a
        | None => here
        end
      else here
  | "" => here
  end.

(** [p{lo,}?] lazy: stop as soon as the continuation succeeds. *)
Fixpoint lazy {A} (p : ascii -> bool) (k : pos -> option A) (lo : nat)
    (pv : option ascii) (i : nat) (cp : option (nat * nat)) (s : string)
    : option A :=
  let here := match lo with O => k (Pos pv i s cp) | S _ => None end in
  match here with
  | Some a => Some a
  | None =>
      match s with
      | String c s' =>
          if p c then lazy p k (Nat.pred lo) (Some c) (S i) cp s' else None
      | "" => None
      end
  end.

Fixpoint rmatch {A} (r : regex) (k : pos -> option A) (m : pos) : option A :=
  match r with
  | Eps => k m
  | Boundary =>
      if xorb (word_opt (prev m)) (word_opt (next (rest m))) then k m else None
  | End =>
      match rest m with
      | "" => k m
      | String c "" => if Char.eqb c "010"%char then k m else None
      | _ => None
      end
  | Lit c =>
      match rest m with
      | String c' s' =>
          if Char.eqb c c' then k (Pos (Some c') (S (idx m)) s' (cap m))
          else None
      | "" => None
      end
  | Seq r1 r2 => rmatch r1 (rmatch r2 k) m
  | Alt r1 r2 =>
      match rmatch r1 k m with
      | Some a => Some a
      | None => rmatch r2 k m
      end
  | Greedy p lo => greedy p k lo (prev m) (idx m) (cap m) (rest m)
  | Lazy p lo => lazy p k lo (prev m) (idx m) (cap m) (rest m)
  | Group r1 =>
      rmatch r1 (fun m' => k (Pos (prev m') (idx m') (rest m')
                                  (Some (idx m, idx m')))) m
  end.

Definition seq (rs : list regex) : regex :=
  foldr Seq Eps rs.

Definition lits (s : string) : regex :=
  seq (Lit <$> list_ascii_of_string s).

(** The end of the match and the span of group 1. *)
Definition found : Type := nat * option (nat * nat).

Definition match_at (r : regex) (pv : option ascii) (i : nat) (s : string)
    : option found :=
  rmatch r (fun m => Some (idx m, cap m)) (Pos pv i s None).

(** [pattern.match(s)]: a match that starts at index 0 (it need not reach
    the end of [s]). *)
Definition match_ (r : regex) (s : string) : option found :=
  match_at r None 0 s.

(** A match that starts at index 0 and consumes all of [s]. *)
Definition fullmatch (r : regex) (s : string) : bool :=
  match rmatch r (fun m => match rest m with "" => Some tt | _ => None end)
               (Pos None 0 s None) with
  | Some _ => true
  | None => false
  end.

(** [pattern.search(s)]: the leftmost start that matches. *)
Fixpoint search_from (r : regex) (pv : option ascii) (i : nat) (s : string)
    : option (nat * found) :=
  match match_at r pv i s with
  | Some f => Some (i, f)
  | None =>
      match s with
      | "" => None
      | String c s' => search_from r (Some c) (S i) s'
      end
  end.

Definition search (r : regex) (s : string) : option (nat * found) :=
  search_from r None 0 s.

(** [m.group(0)] of [pattern.search(s)]. *)
Definition search_group0 (r : regex) (s : string) : option string :=
  match search r s with
  | Some (b, (e, _)) => Some (Str.slice b e s)
  | None => None
  end.

(** [m.group(1)] of [pattern.search(s)]. *)
Definition search_group1 (r : regex) (s : string) : option string :=
  match search r s with
  | Some (_, (_, Some (b, e))) => Some (Str.slice b e s)
  | _ => None
  end.

(** [re.sub(pattern, '', s)]: every non-overlapping match is deleted,
    scanning from the left.  [skip] counts the characters of the match in
    progress that are still to be dropped. *)
Fixpoint delete_from (r : regex) (skip : nat) (pv : option ascii) (i : nat)
    (s : string) : string :=
  match s with
  | "" => ""
  | String c s' =>
      match skip with
      | S n => delete_from r n (Some c) (S i) s'
      | O =>
          match match_at r pv i s with
          | Some (e, _) =>
              match e - i with
              | S n => delete_from r n (Some c) (S i) s'
              | O => String c (delete_from r 0 (Some c) (S i) s')
              end
          | None => String c (delete_from r 0 (Some c) (S i) s')
          end
      end
  end.

Definition sub_empty (r : regex) (s : string) : string :=
  delete_from r 0 None 0 s.

End Re.

(** ** Module-level constants and [validate_email] *)

Definition BASE : string := "https://collabstr.com".
Definition UGC_URL : string := "https://collabstr.com/influencers?c=ugc".
Definition VIDEO_URL : string := "https://collabstr.com/influencers?c=video".

Definition one_of (cs : string) (c : ascii) : bool :=
  existsb (Char.eqb c) (list_ascii_of_string cs).

(** [\b[A-Za-z0-9._%+-]+@[A-Za-z0-9.-]+\.[A-Za-z]{2,}\b] *)
Definition EMAIL_REGEX : Re.regex :=
  Re.seq [ Re.Boundary;
           Re.Greedy (fun c => Char.is_alnum c || one_of "._%+-" c) 1;
           Re.Lit "@";
           Re.Greedy (fun c => Char.is_alnum c || one_of ".-" c) 1;
           Re.Lit ".";
           Re.Greedy Char.is_alpha 2;
           Re.Boundary ].

(** The patterns of [invalid_patterns]; each is a literal text (the only
    metacharacter, in [example\.com], is an escaped dot). *)
Definition invalid_patterns : list Re.regex :=
  Re.lits <$> ["noreply"; "no-reply"; "donotreply";
               "example.com"; "test@"; "admin@localhost"].

Definition validate_email (email : string) : bool :=
  if negb (Str.truthy email) then false else
  let email := Str.lower (Str.strip email) in
  if negb (bool_decide (is_Some (Re.match_ EMAIL_REGEX email))) then false else
  if existsb (fun pattern => bool_decide (is_Some (Re.search pattern email)))
             invalid_patterns then false else
  if (Str.len email <? 6)%Z || (254 <? Str.len email)%Z then false else
  match Str.split "@" email with
  | [local; domain] =>
      if (64 <? Str.len local)%Z || negb (Str.truthy local) then false else
      if (253 <? Str.len domain)%Z || negb (Str.truthy domain)
         || negb (Str.contains "." domain) then false else
      let domain_parts := Str.split "." domain in
      if (Str.len (Str.last domain_parts) <? 2)%Z then false else
      true
  | _ => false
  end.

(** ** Data model *)

(** A creator row.  The source builds it as a dict: [extract_from_card]
    fills the first five keys on every path, [parse_search_page] then sets
    [role_type] on every row and [instagram_handle] on the accepted ones.
    A key that is not set yet reads as the empty string here. *)
Record Row : Type := mkRow {
  profile_url : string;
  username : string;
  name : string;
  heading : string;
  email : string;
  role_type : string;
  instagram_handle : string
}.

Definition set_role_type (d : Row) (v : string) : Row :=
  mkRow (profile_url d) (username d) (name d) (heading d) (email d) v
        (instagram_handle d).

Definition set_instagram_handle (d : Row) (v : string) : Row :=
  mkRow (profile_url d) (username d) (name d) (heading d) (email d)
        (role_type d) v.

Definition set_email (d : Row) (v : string) : Row :=
  mkRow (profile_url d) (username d) (name d) (heading d) v (role_type d)
        (instagram_handle d).

(** The dict of the [except] branch of [extract_from_card]. *)
Definition empty_row : Row := mkRow "" "" "" "" "" "" "".

(** One line of an exported file: the columns
    [["name", "email", "profile_url", "role_type"]]. *)
Record ExportRow : Type := mkExport {
  x_name : string;
  x_email : string;
  x_profile_url : string;
  x_role_type : string
}.

(** ** Exceptions *)

Inductive exn : Type :=
| NoSuchElementException
| TimeoutException
| WebDriverException.

Inductive res (A : Type) : Type :=
| Ok (a : A)
| Raise (e : exn).

Arguments Ok {A} a.
Arguments Raise {A} e.

(** ** What Selenium shows

    Each field is the outcome of the Selenium calls the source makes on
    the object: a value, or the exception the call raises. *)

(** A listing card [el]. *)
Record Element : Type := mkElement {
  (** [el.text] *)
  el_text : res string;
  (** [el.find_element(By.CSS_SELECTOR, "a[href^='/']").get_attribute("href")];
      [None] is the attribute value [None] *)
  el_link : res (option string);
  (** [el.find_element(..., "div.profile-listing-owner-name").text] *)
  el_name : res string;
  (** [el.find_element(..., "h1.listing-title, .header-title").text] *)
  el_heading : res string
}.

(** A listing page after [driver.get(url)]. *)
Record ListingPage : Type := mkListing {
  (** [driver.get(url)] and the scroll script *)
  lp_load : res unit;
  (** the wait for [div.profile-listing-holder] and [find_elements] *)
  lp_cards : res (list Element)
}.

(** A profile detail page after [driver.get(profile_url)]. *)
Record ProfilePage : Type := mkProfile {
  (** [driver.get(profile_url)] and the wait for [body] *)
  pp_load : res unit;
  (** [driver.find_element(..., "h1.listing-title, .header-title").text] *)
  pp_heading : res string;
  (** the two scroll scripts *)
  pp_scroll : res unit;
  (** [find_elements(..., 'a[href*="instagram.com"]')] and, for each
      element, [get_attribute("href")] *)
  pp_anchors : res (list (res (option string)))
}.

(** Calls that reach out to a site, as they happen. *)
Inductive Event : Type :=
| CallListing (url role_type : string)
| CallProfile (profile_url : string)
| CallBio (instagram_handle : string).

(** The sites.  Every answer may depend on the calls made so far. *)
Record World : Type := mkWorld {
  (** [self.session.get_authenticated_driver()] *)
  w_login : list Event -> res unit;
  w_listing : list Event -> string -> ListingPage;
  w_profile : list Event -> string -> ProfilePage;
  (** [webdriver.Chrome(options=options)] of [get_instagram_driver] *)
  w_chrome : list Event -> res unit;
  (** [driver.get(url)], the wait for [body] and [driver.page_source] *)
  w_instagram : list Event -> string -> res string
}.

(** ** The scraper object *)

Record Scraper : Type := mkScraper {
  max_pages : Z;
  max_profiles : Z;
  ugc_rows : list Row;
  video_rows : list Row;
  ugc_profile_urls : gset string;
  (** [self.driver] is set *)
  driver : bool;
  (** [self.instagram_driver] is set *)
  instagram_driver : bool;
  (** instrumentation: the calls made so far, oldest first *)
  trace : list Event;
  (** the files written by [to_csv], oldest first *)
  files : list (string * list ExportRow)
}.

(** [CollabstrDualScraper.__init__] *)
Definition init (max_pages max_profiles : Z) : Scraper :=
  mkScraper max_pages max_profiles [] [] ∅ false false [] [].

Definition set_ugc_rows (rows : list Row) (s : Scraper) : Scraper :=
  mkScraper (max_pages s) (max_profiles s) rows (video_rows s)
            (ugc_profile_urls s) (driver s) (instagram_driver s) (trace s)
            (files s).

Definition set_video_rows (rows : list Row) (s : Scraper) : Scraper :=
  mkScraper (max_pages s) (max_profiles s) (ugc_rows s) rows
            (ugc_profile_urls s) (driver s) (instagram_driver s) (trace s)
            (files s).

Definition set_driver (s : Scraper) : Scraper :=
  mkScraper (max_pages s) (max_profiles s) (ugc_rows s) (video_rows s)
            (ugc_profile_urls s) true (instagram_driver s) (trace s)
            (files s).

Definition set_instagram_driver (s : Scraper) : Scraper :=
  mkScraper (max_pages s) (max_profiles s) (ugc_rows s) (video_rows s)
            (ugc_profile_urls s) (driver s) true (trace s) (files s).

Definition log_call (ev : Event) (s : Scraper) : Scraper :=
  mkScraper (max_pages s) (max_profiles s) (ugc_rows s) (video_rows s)
            (ugc_profile_urls s) (driver s) (instagram_driver s)
            ((trace s ++ [ev])%list) (files s).

Definition write_file (fname : string) (rows : list ExportRow) (s : Scraper)
    : Scraper :=
  mkScraper (max_pages s) (max_profiles s) (ugc_rows s) (video_rows s)
            (ugc_profile_urls s) (driver s) (instagram_driver s) (trace s)
            ((files s ++ [(fname, rows)])%list).

(** ** The monad of the methods: state of the object, and exceptions.
    The state survives an exception, as the Python heap does. *)

Definition M (A : Type) : Type := Scraper -> res A * Scraper.

Definition ret {A} (a : A) : M A := fun s => (Ok a, s).

Definition raise {A} (e : exn) : M A := fun s => (Raise e, s).

Definition bind {A B} (m : M A) (k : A -> M B) : M B :=
  fun s =>
    match m s with
    | (Ok a, s') => k a s'
    | (Raise e, s') => (Raise e, s')
    end.

(** [try: m  except Exception: h] *)
Definition try_except {A} (m : M A) (h : M A) : M A :=
  fun s =>
    match m s with
    | (Ok a, s') => (Ok a, s')
    | (Raise _, s') => h s'
    end.

Definition lift {A} (r : res A) : M A := fun s => (r, s).

Definition gets {A} (f : Scraper -> A) : M A := fun s => (Ok (f s), s).

Definition modify (f : Scraper -> Scraper) : M unit := fun s => (Ok tt, f s).

Notation "'do' x <- m ; k" := (bind m (fun x => k))
  (at level 10, x pattern, m at level 100, k at level 200).

(** ** [urllib.parse] and [int] *)

(** The fields of [urlparse]'s result. *)
Record ParseResult : Type := mkParse {
  scheme : string;
  netloc : string;
  path : string;
  params : string;
  query : string;
  fragment : string
}.

(** An insertion-ordered [dict] from [str] keys. *)
Definition dict (V : Type) : Type := list (string * V).

(** [d.get(k)] *)
Fixpoint dict_get {V} (k : string) (d : dict V) : option V :=
  match d with
  | [] => None
  | (k', v) :: d' => if String.eqb k k' then Some v else dict_get k d'
  end.

(** [d[k] = v]: an existing key keeps its place, a new key goes last. *)
Fixpoint dict_set {V} (k : string) (v : V) (d : dict V) : dict V :=
  match d with
  | [] => [(k, v)]
  | (k', v') :: d' =>
      if String.eqb k k' then (k', v) :: d' else (k', v') :: dict_set k v d'
  end.

(** The library functions [paginate_urls] calls.  [py_int] is [int(s)],
    [None] when it raises [ValueError]. *)
Record UrlLib : Type := mkLib {
  urlparse : string -> ParseResult;
  parse_qs : string -> dict (list string);
  py_int : string -> option Z
}.

(** [range(a, b)] *)
Definition py_range (a b : Z) : list Z := seqZ a (b - a).

(** [l[:n]], also for a negative [n]. *)
Definition py_take {A} (n : Z) (l : list A) : list A :=
  if (0 <=? n)%Z then take (Z.to_nat n) l
  else take (length l - Z.to_nat (- n)) l.

Definition res_bind {A B} (r : res A) (k : A -> res B) : res B :=
  match r with
  | Ok a => k a
  | Raise e => Raise e
  end.

(** [try: r  except NoSuchElementException: dflt] *)
Definition or_if_missing {A} (r : res A) (dflt : A) : res A :=
  match r with
  | Raise NoSuchElementException => Ok dflt
  | _ => r
  end.

(** ** [CollabstrDualScraper]: the methods without side effects *)

Definition ugc_terms : list string :=
  ["ugc"; "user generated content"; "content creator"].

Definition video_terms : list string :=
  ["video"; "editor"; "video editor"; "video editing"].

Definition validate_heading_for_role (heading_text role_type : string)
    : bool :=
  if negb (Str.truthy heading_text) then false else
  let heading_lower := Str.lower heading_text in
  if String.eqb role_type "ugc" then
    existsb (fun term => Str.contains term heading_lower) ugc_terms
  else if String.eqb role_type "video_editor" then
    existsb (fun term => Str.contains term heading_lower) video_terms
  else false.

(** [\s*\d+\.\d+\s*$] *)
Definition RATING_SUFFIX : Re.regex :=
  Re.seq [ Re.Greedy Char.is_space 0; Re.Greedy Char.is_digit 1; Re.Lit ".";
           Re.Greedy Char.is_digit 1; Re.Greedy Char.is_space 0; Re.End ].

(** [instagram\.com/([a-zA-Z0-9._]+?)(?:/|\?|$)] *)
Definition INSTAGRAM_HANDLE : Re.regex :=
  Re.seq [ Re.lits "instagram.com/";
           Re.Group (Re.Lazy (fun c => Char.is_alnum c || one_of "._" c) 1);
           Re.Alt (Re.Lit "/") (Re.Alt (Re.Lit "?") Re.End) ].

Definition excluded_paths : list string :=
  ["login"; "signup"; "about"; "contact"].

(** The [try] block of [extract_from_card]. *)
Definition extract_from_card_body (el : Element) : res Row :=
  res_bind (el_text el) (fun text =>
  res_bind (el_link el) (fun href =>
  let '(url, uname) :=
    match href with
    | Some href =>
        if Str.truthy href
           && negb (existsb (fun x => Str.contains x href) excluded_paths)
        then
          let username :=
            Str.last (Str.split "/" (Str.rstrip_by (Char.eqb "/") href)) in
          (href, if Str.truthy username then "@" +:+ username else "")
        else ("", "")
    | None => ("", "")
    end in
  res_bind
    (or_if_missing
       (res_bind (el_name el) (fun t =>
          let raw_name := Str.strip t in
          Ok (Str.strip (Re.sub_empty RATING_SUFFIX raw_name))))
       uname) (fun nm =>
  res_bind
    (or_if_missing (res_bind (el_heading el) (fun t => Ok (Str.strip t))) "")
    (fun hd =>
  let m_email := Re.search_group0 EMAIL_REGEX text in
  let email := match m_email with Some e => e | None => "" end in
  Ok (mkRow url uname nm hd (if validate_email email then email else "")
            "" ""))))).

Definition extract_from_card (el : Element) : Row :=
  match extract_from_card_body el with
  | Ok data => data
  | Raise _ => empty_row
  end.

Definition invalid_handles : list string :=
  ["p"; "reel"; "reels"; "tv"; "stories"; "explore"; "accounts"; "direct"].

Definition in_list (s : string) (l : list string) : bool :=
  existsb (String.eqb s) l.

(** The loop over [instagram_elements]: the first accepted handle.  An
    element whose [href] cannot be read or is [None] is skipped by the
    bare [except]. *)
Fixpoint first_handle (elems : list (res (option string))) : option string :=
  match elems with
  | [] => None
  | Ok (Some href) :: rest =>
      match Re.search_group1 INSTAGRAM_HANDLE href with
      | Some handle =>
          if String.eqb (Str.lower handle) "collabstr" then first_handle rest
          else if negb (in_list (Str.lower handle) invalid_handles)
          then Some handle
          else first_handle rest
      | None => first_handle rest
      end
  | _ :: rest => first_handle rest
  end.

(** Truthiness of [expected_role: str = None]. *)
Definition role_given (expected_role : option string) : option string :=
  match expected_role with
  | Some r => if Str.truthy r then Some r else None
  | None => None
  end.

(** The outcome of the heading check of [extract_instagram_from_profile]:
    [None] is the early [return "", False]. *)
Definition heading_check (page : ProfilePage) (expected_role : option string)
    : res (option bool) :=
  match role_given expected_role with
  | Some role =>
      match pp_heading page with
      | Ok t =>
          let heading_text := Str.strip t in
          let heading_valid := validate_heading_for_role heading_text role in
          if negb heading_valid then Ok None else Ok (Some heading_valid)
      | Raise NoSuchElementException => Ok (Some false)
      | Raise e => Raise e
      end
  | None => Ok (Some true)
  end.

(** [extract_instagram_from_profile] from the loaded page on: what the
    [try] block returns or raises. *)
Definition profile_page_result (page : ProfilePage)
    (expected_role : option string) : res (string * bool) :=
  res_bind (pp_load page) (fun _ =>
  res_bind (heading_check page expected_role) (fun checked =>
  match checked with
  | None => Ok ("", false)
  | Some heading_valid =>
      res_bind (pp_scroll page) (fun _ =>
      match pp_anchors page with
      | Ok instagram_elements =>
          match first_handle instagram_elements with
          | Some handle => Ok (handle, heading_valid)
          | None => Ok ("", heading_valid)
          end
      | Raise _ => Ok ("", heading_valid)
      end)
  end)).

(** [find_cards]: every failure is an empty list. *)
Definition find_cards (page : ListingPage) : list Element :=
  match lp_cards page with
  | Ok profile_holders => profile_holders
  | Raise _ => []
  end.

(** The first loop of [parse_search_page], over [cards]. *)
Fixpoint card_data_list (role_type : string) (seen : gset string)
    (cards : list Element) : list Row :=
  match cards with
  | [] => []
  | el :: rest =>
      let d := set_role_type (extract_from_card el) role_type in
      if Str.truthy (heading d)
         && negb (validate_heading_for_role (heading d) role_type)
      then card_data_list role_type seen rest
      else if Str.truthy (profile_url d) && Str.truthy (name d) then
        if String.eqb role_type "video_editor"
           && bool_decide (profile_url d ∈ seen)
        then card_data_list role_type seen rest
        else d :: card_data_list role_type seen rest
      else card_data_list role_type seen rest
  end.

(** ** The methods that use the sites *)

Section Pipeline.

Context (lib : UrlLib) (w : World).

Definition rebuild_query (parsed : ParseResult) (extra : dict Z) : string :=
  let q := parse_qs lib (query parsed) in
  let q := foldl (fun q kv => dict_set (fst kv) [Str.of_Z (snd kv)] q) q extra in
  let parts :=
    flat_map (fun kvs => (fun v => fst kvs +:+ "=" +:+ v) <$> snd kvs) q in
  let qs := Str.join "&" parts in
  scheme parsed +:+ "://" +:+ netloc parsed +:+ path parsed +:+ "?" +:+ qs.

(** [paginate_urls], with [self.max_pages] as an argument. *)
Definition paginate_urls (max_pages : Z) (first_url : string) : list string :=
  let parsed := urlparse lib first_url in
  let q := parse_qs lib (query parsed) in
  match dict_get "page" q with
  | Some vals =>
      let start :=
        match vals with
        | v :: _ => match py_int lib v with Some n => n | None => 1%Z end
        | [] => 1%Z
        end in
      first_url ::
        ((fun i => rebuild_query parsed [("page", i)])
           <$> py_range (start + 1) (start + max_pages))
  | None =>
      first_url ::
        ((fun i =>
            let sep := if Str.truthy (query parsed) then "&" else "?" in
            first_url +:+ sep +:+ "pg=" +:+ Str.of_Z i)
           <$> py_range 2 (max_pages + 1))
  end.

(** [CollabstrDualScraper.get_authenticated_driver] *)
Definition get_authenticated_driver : M unit := fun s =>
  if driver s then (Ok tt, s)
  else match w_login w (trace s) with
       | Ok _ => (Ok tt, set_driver s)
       | Raise e => (Raise e, s)
       end.

Definition get_instagram_driver : M unit := fun s =>
  if instagram_driver s then (Ok tt, s)
  else match w_chrome w (trace s) with
       | Ok _ => (Ok tt, set_instagram_driver s)
       | Raise e => (Raise e, s)
       end.

Definition extract_instagram_from_profile (profile_url : string)
    (expected_role : option string) : M (string * bool) :=
  do _ <- modify (log_call (CallProfile profile_url));
  try_except
    (do _ <- get_authenticated_driver;
     do page <- gets (fun s => w_profile w (trace s) profile_url);
     lift (profile_page_result page expected_role))
    (ret ("", false)).

(** The second loop of [parse_search_page], over [card_data_list]. *)
Fixpoint resolve_cards (role_type : string) (ds : list Row)
    : M (list Row) :=
  match ds with
  | [] => ret []
  | d :: rest =>
      do r <- extract_instagram_from_profile (profile_url d) (Some role_type);
      let '(ig_handle, heading_valid) := r in
      if negb heading_valid then resolve_cards role_type rest
      else
        do out <- resolve_cards role_type rest;
        ret (set_instagram_handle d ig_handle :: out)
  end.

Definition parse_search_page (url role_type : string) : M (list Row) :=
  do _ <- modify (log_call (CallListing url role_type));
  do _ <- get_authenticated_driver;
  try_except
    (do page <- gets (fun s => w_listing w (trace s) url);
     do _ <- lift (lp_load page);
     let cards := find_cards page in
     do seen <- gets ugc_profile_urls;
     resolve_cards role_type (card_data_list role_type seen cards))
    (ret []).

(** The loop of [scrape_category] over the planned URLs, from the rows
    accumulated so far. *)
Fixpoint scrape_pages (role_type : string) (max_profiles : Z)
    (urls : list string) (rows : list Row) : M (list Row) :=
  match urls with
  | [] => ret rows
  | url :: rest =>
      if (max_profiles <=? Z.of_nat (length rows))%Z then ret rows
      else
        do page_rows <- parse_search_page url role_type;
        let rows := (rows ++ page_rows)%list in
        if (max_profiles <=? Z.of_nat (length rows))%Z
        then ret (py_take max_profiles rows)
        else scrape_pages role_type max_profiles rest rows
  end.

Definition scrape_category (base_url role_type : string) (max_profiles : Z)
    : M (list Row) :=
  do pages <- gets max_pages;
  let urls := paginate_urls pages base_url in
  scrape_pages role_type max_profiles urls [].

(** [run].  The statement that would fill [ugc_profile_urls] after the
    first category is commented out in the source, so nothing is stored. *)
Definition run : M unit :=
  do _ <- get_authenticated_driver;
  do budget <- gets max_profiles;
  do rows <- scrape_category UGC_URL "ugc" budget;
  do _ <- modify (set_ugc_rows rows);
  do budget <- gets max_profiles;
  do rows <- scrape_category VIDEO_URL "video_editor" budget;
  modify (set_video_rows rows).

Definition fetch_instagram_email_selenium (instagram_handle : string)
    : M string :=
  do _ <- modify (log_call (CallBio instagram_handle));
  if negb (Str.truthy instagram_handle) then ret "" else
  let uname :=
    Str.strip (Str.lstrip_by (Char.eqb "@") instagram_handle) in
  let url := "https://www.instagram.com/" +:+ uname +:+ "/" in
  try_except
    (do _ <- get_instagram_driver;
     do page_source <- (fun s => (w_instagram w (trace s) url, s));
     match Re.search_group0 EMAIL_REGEX page_source with
     | Some email => if validate_email email then ret email else ret ""
     | None => ret ""
     end)
    (ret "").

(** [enrich_with_instagram_emails].  The source updates the dicts of
    [rows] in place; here the updated list is returned and the caller
    stores it.  No dict occurs twice in a list of rows: each one is made by
    one call of [extract_from_card] and appended once. *)
Fixpoint enrich_with_instagram_emails (rows : list Row) : M (list Row) :=
  match rows with
  | [] => ret []
  | row :: rest =>
      if negb (Str.truthy (email row)) && Str.truthy (instagram_handle row)
      then
        do found <- fetch_instagram_email_selenium (instagram_handle row);
        let row := if Str.truthy found then set_email row found else row in
        do rest <- enrich_with_instagram_emails rest;
        ret (row :: rest)
      else
        do rest <- enrich_with_instagram_emails rest;
        ret (row :: rest)
  end.

(** [df[["name", "email", "profile_url", "role_type"]]] *)
Definition select_columns (rows : list Row) : list ExportRow :=
  (fun r => mkExport (name r) (email r) (profile_url r) (role_type r))
    <$> rows.

(** [df[df["email"].notna() & (df["email"] != "")]]: every cell holds a
    string, so [notna()] is true on every line. *)
Definition with_email (df : list ExportRow) : list ExportRow :=
  filter (fun r => Str.truthy (x_email r) = true) df.

(** [DataFrame(rows)], the two selections and [to_csv(fname)]. *)
Definition export (fname : string) (rows : list Row) : M unit :=
  modify (write_file fname (with_email (select_columns rows))).

Definition nonempty {A} (l : list A) : bool :=
  match l with [] => false | _ => true end.

Definition save_csv : M unit :=
  do ugc <- gets ugc_rows;
  do video <- gets video_rows;
  if negb (nonempty ugc) && negb (nonempty video) then ret tt else
  do _ <- (if nonempty ugc then
             do rows <- enrich_with_instagram_emails ugc;
             modify (set_ugc_rows rows)
           else ret tt);
  do _ <- (do video <- gets video_rows;
           if nonempty video then
             do rows <- enrich_with_instagram_emails video;
             modify (set_video_rows rows)
           else ret tt);
  do _ <- (do ugc <- gets ugc_rows;
           if nonempty ugc then export "ugc_creators.csv" ugc else ret tt);
  do video <- gets video_rows;
  if nonempty video then export "video_editors.csv" video else ret tt.

End Pipeline.

(** ** [urllib.parse] and [int] on plain input

    These follow CPython's [urlsplit], [parse_qsl] and [int] for URLs
    without [%] escapes, [+], [;], brackets and control characters; they
    instantiate [UrlLib] where a concrete URL is evaluated. *)

Module Plain.

(** [s] up to the first character that satisfies [p], and the rest. *)
Fixpoint break_at (p : ascii -> bool) (s : string) : string * string :=
  match s with
  | "" => ("", "")
  | String c s' =>
      if p c then ("", s)
      else let '(a, b) := break_at p s' in (String c a, b)
  end.

Definition tail (s : string) : string :=
  match s with String _ s' => s' | "" => "" end.

Definition scheme_char (c : ascii) : bool :=
  Char.is_alnum c || one_of "+-." c.

Fixpoint all_chars (p : ascii -> bool) (s : string) : bool :=
  match s with
  | "" => true
  | String c s' => p c && all_chars p s'
  end.

Definition urlparse (url : string) : ParseResult :=
  let '(sch, url) :=
    let '(before, after) := break_at (Char.eqb ":") url in
    match before, after with
    | String c0 _, String _ after' =>
        if Char.is_alpha c0 && all_chars scheme_char before
        then (Str.lower before, after') else ("", url)
    | _, _ => ("", url)
    end in
  let '(loc, url) :=
    if String.prefix "//" url
    then break_at (one_of "/?#") (tail (tail url))
    else ("", url) in
  let '(url, frag) :=
    let '(a, b) := break_at (Char.eqb "#") url in (a, tail b) in
  let '(url, qry) :=
    let '(a, b) := break_at (Char.eqb "?") url in (a, tail b) in
  mkParse sch loc url "" qry frag.

(** [parse_qsl]: the [name=value] pairs with a non-blank value. *)
Definition parse_qsl (qs : string) : list (string * string) :=
  flat_map (fun name_value =>
    let '(nm, v) := break_at (Char.eqb "=") name_value in
    match v with
    | String _ (String c v') => [(nm, String c v')]
    | _ => []
    end) (Str.split "&" qs).

Definition parse_qs (qs : string) : dict (list string) :=
  foldl (fun parsed_result nv =>
    match dict_get (fst nv) parsed_result with
    | Some vals => dict_set (fst nv) (vals ++ [snd nv])%list parsed_result
    | None => dict_set (fst nv) [snd nv] parsed_result
    end) [] (parse_qsl qs).

(** Decimal digits with single underscores between them. *)
Fixpoint digits (acc : Z) (after_digit : bool) (s : string) : option Z :=
  match s with
  | "" => if after_digit then Some acc else None
  | String c s' =>
      if Char.is_digit c
      then digits (10 * acc + Z.of_nat (Char.code c - 48))%Z true s'
      else if Char.eqb c "_" && after_digit then digits acc false s'
      else None
  end.

Definition int (s : string) : option Z :=
  match Str.strip s with
  | String "-" s' => Z.opp <$> digits 0 false s'
  | String "+" s' => digits 0 false s'
  | s' => digits 0 false s'
  end.

Definition lib : UrlLib := mkLib urlparse parse_qs int.

End Plain.

(** ** Notions used to state the properties *)

(** [s'] is [s] after the calls [evs]: the configuration, the rows and the
    files are those of [s], and a driver that was set stays set. *)
Definition evolves (s : Scraper) (evs : list Event) (s' : Scraper) : Prop :=
  max_pages s' = max_pages s ∧ max_profiles s' = max_profiles s ∧
  ugc_rows s' = ugc_rows s ∧ video_rows s' = video_rows s ∧
  ugc_profile_urls s' = ugc_profile_urls s ∧ files s' = files s ∧
  (driver s = true → driver s' = true) ∧
  trace s' = (trace s ++ evs)%list.

(** The candidates of a page are the cards that pass the three tests of
    the first loop, in page order. *)
Definition passes_filters (role_type : string) (seen : gset string)
    (d : Row) : bool :=
  negb (Str.truthy (heading d)
        && negb (validate_heading_for_role (heading d) role_type))
  && (Str.truthy (profile_url d) && Str.truthy (name d))
  && negb (String.eqb role_type "video_editor"
           && bool_decide (profile_url d ∈ seen)).

(** The text of a query: [key=value] for every value of every key, in
    the order of the dict, joined by [&]. *)
Definition render_query (q : dict (list string)) : string :=
  Str.join "&"
    (flat_map (fun kvs => (fun v => fst kvs +:+ "=" +:+ v) <$> snd kvs) q).

(** [q'] has the keys of [q] in the same order, and the values of [q] for
    every key other than [k]. *)
Definition same_but (k : string) (q q' : dict (list string)) : Prop :=
  Forall2 (fun kv kv' => fst kv' = fst kv ∧ (fst kv ≠ k → snd kv' = snd kv))
          q q'.

(** A row that lacks an email and holds a handle. *)
Definition needs_bio (r : Row) : bool :=
  negb (Str.truthy (email r)) && Str.truthy (instagram_handle r).

(** The resolver calls made for a list of rows. *)
Definition bio_calls (rows : list Row) : list Event :=
  (fun r => CallBio (instagram_handle r))
    <$> filter (fun r => needs_bio r = true) rows.

(** [r'] is [r] after its turn in the enrichment loop: a row that lacks an
    email and holds a handle gets the email that a call of
    [fetch_instagram_email_selenium] on its handle returned, if that is
    non-empty; any other row is left as it is. *)
Definition enriched (w : World) (r r' : Row) : Prop :=
  if needs_bio r then
    ∃ s found s',
      fetch_instagram_email_selenium w (instagram_handle r) s = (Ok found, s')
      ∧ (found = "" ∨ validate_email found = true)
      ∧ r' = (if Str.truthy found then set_email r found else r)
  else r' = r.

(** The rows with a non-empty email, in order, as lines of a file. *)
Definition exported (rows : list Row) : list ExportRow :=
  (fun r => mkExport (name r) (email r) (profile_url r) (role_type r))
    <$> filter (fun r => email r ≠ "") rows.

(** A call of a profile detail page. *)
Definition is_profile_call (ev : Event) : Prop :=
  match ev with CallProfile _ => True | _ => False end.

Definition is_listing_call (ev : Event) : Prop :=
  match ev with CallListing _ _ => True | _ => False end.

Definition is_bio_call (ev : Event) : Prop :=
  match ev with CallBio _ => True | _ => False end.

#[global] Instance is_profile_call_dec ev : Decision (is_profile_call ev).
Proof. destruct ev; cbn; apply _. Defined.

#[global] Instance is_listing_call_dec ev : Decision (is_listing_call ev).
Proof. destruct ev; cbn; apply _. Defined.

#[global] Instance is_bio_call_dec ev : Decision (is_bio_call ev).
Proof. destruct ev; cbn; apply _. Defined.

(** ** Concrete sites used to evaluate the pipeline *)

Module Scenario.

Definition jane_url : string := "https://collabstr.com/jane".

(** A card with a link and a name but no title element. *)
Definition card_without_heading : Element :=
  mkElement (Ok "Jane") (Ok (Some jane_url)) (Ok "Jane")
            (Raise NoSuchElementException).

(** A card whose title names both roles. *)
Definition card_both_roles : Element :=
  mkElement (Ok "Jane 5.0 UGC Video Creator jane@studio.io")
            (Ok (Some jane_url)) (Ok "Jane 5.0")
            (Ok "UGC Video Creator").

(** A card without any link. *)
Definition card_without_link : Element :=
  mkElement (Ok "Ad") (Raise NoSuchElementException) (Ok "Ad") (Ok "UGC").

(** A detail page with a title that names both roles and no anchor. *)
Definition profile_both_roles : ProfilePage :=
  mkProfile (Ok tt) (Ok "UGC Video Creator") (Ok tt) (Ok []).

(** A detail page without a title element, with an Instagram anchor. *)
Definition profile_without_heading : ProfilePage :=
  mkProfile (Ok tt) (Raise NoSuchElementException) (Ok tt)
            (Ok [Ok (Some "https://www.instagram.com/jane/")]).

(** Sites that answer every request in the same way. *)
Definition site (cards : list Element) (detail : ProfilePage)
    (bio : string) : World :=
  mkWorld (fun _ => Ok tt)
          (fun _ _ => mkListing (Ok tt) (Ok cards))
          (fun _ _ => detail)
          (fun _ => Ok tt)
          (fun _ _ => Ok bio).

(** A scraper that holds its driver. *)
Definition ready (pages profiles : Z) : Scraper :=
  set_driver (init pages profiles).

End Scenario.

(** ** Notions used to state further properties *)

(** The texts that [invalid_patterns] search for. *)
Definition deny_list : list string :=
  ["noreply"; "no-reply"; "donotreply";
   "example.com"; "test@"; "admin@localhost"].

(** An email as [validate_email] looks at it: trimmed and lowercased. *)
Definition normalized (e : string) : string := Str.lower (Str.strip e).


(** The username that [extract_from_card] derives from a profile URL. *)
Definition username_of (url : string) : string :=
  let u := Str.last (Str.split "/" (Str.rstrip_by (Char.eqb "/") url)) in
  if Str.truthy u then "@" +:+ u else "".


(** Every character of [s] satisfies [p]. *)
Fixpoint every (p : ascii -> bool) (s : string) : bool :=
  match s with
  | "" => true
  | String c s' => p c && every p s'
  end.

(** [s] without its first [n] characters. *)
Fixpoint skip (n : nat) (s : string) : string :=
  match n, s with
  | S n', String _ s' => skip n' s'
  | _, _ => s
  end.

(** The characters of [[a-zA-Z0-9._]]. *)
Definition handle_char (c : ascii) : bool :=
  Char.is_alnum c || one_of "._" c.

(** A handle that [extract_instagram_from_profile] may return: a
    non-empty text of handle characters that is neither the brand account
    nor a reserved path word, in any letter case. *)
Definition accepted_handle (h : string) : Prop :=
  h ≠ "" ∧ every handle_char h = true
  ∧ Str.lower h ≠ "collabstr"
  ∧ in_list (Str.lower h) invalid_handles = false.

(** A candidate of [card_data_list] for [role_type] and the set [seen]. *)
Definition candidate_row (role : string) (seen : gset string) (d : Row)
    : Prop :=
  role_type d = role ∧ profile_url d ≠ "" ∧ name d ≠ ""
  ∧ (heading d = "" ∨ validate_heading_for_role (heading d) role = true)
  ∧ (email d = "" ∨ validate_email (email d) = true)
  ∧ (role = "video_editor" → profile_url d ∉ seen).

(** A row that [parse_search_page] returns. *)
Definition accepted_row (role : string) (seen : gset string) (r : Row)
    : Prop :=
  candidate_row role seen r
  ∧ (instagram_handle r = "" ∨ accepted_handle (instagram_handle r)).


(** An event of the scrape of [role]: a listing call for that role, or a
    call of a detail page. *)
Definition event_of (role : string) (ev : Event) : Prop :=
  match ev with
  | CallListing _ r => r = role
  | CallProfile _ => True
  | CallBio _ => False
  end.


(** A line of an exported file of the category [role]. *)
Definition exported_line (role : string) (x : ExportRow) : Prop :=
  x_role_type x = role ∧ validate_email (x_email x) = true
  ∧ x_profile_url x ≠ "" ∧ x_name x ≠ "".


(** ** [CollabstrSession]

    The login session is modelled on its own: the scraper above sees it
    only through [w_login].  A Chrome instance is identified by the number
    of launches before it; [Browser] holds what that instance answers to
    the calls of [login], in the order in which [login] makes them. *)

Module Session.

Inductive By : Type := By_ID | By_NAME | By_CSS_SELECTOR | By_XPATH.

Definition locator : Type := (By * string)%type.

(** What the driver shows at one moment.  A found element is given by the
    outcome of its [is_displayed()]. *)
Record Page : Type := mkPage {
  (** [driver.current_url] *)
  current_url : res string;
  (** [driver.find_element(by, selector)] *)
  find_element : locator -> res (res bool)
}.

Definition logged_in_indicators : list locator :=
  [ (By_CSS_SELECTOR, "a[href*='/dashboard']");
    (By_CSS_SELECTOR, "a[href*='/profile']");
    (By_CSS_SELECTOR, "a[href*='/account']");
    (By_XPATH, "//a[contains(text(), 'Dashboard')]");
    (By_XPATH, "//a[contains(text(), 'Logout')]") ].

Definition login_link : locator :=
  (By_XPATH, "//a[contains(text(), 'Login') or contains(text(), 'Sign In')]").

(** The loop over the indicators: [Some true] when one is found,
    [Some false] when a lookup raises something else than
    [NoSuchElementException], [None] when all are missing. *)
Fixpoint first_indicator (p : Page) (ls : list locator) : option bool :=
  match ls with
  | [] => None
  | l :: rest =>
      match find_element p l with
      | Ok _ => Some true
      | Raise NoSuchElementException => first_indicator p rest
      | Raise _ => Some false
      end
  end.

Definition is_logged_in (p : Page) : bool :=
  match current_url p with
  | Raise _ => false
  | Ok url =>
      let current_url := Str.lower url in
      match first_indicator p logged_in_indicators with
      | Some b => b
      | None =>
          if negb (Str.contains "login" current_url) then
            match find_element p login_link with
            | Ok (Ok displayed) => negb displayed
            | Ok (Raise NoSuchElementException) => true
            | Ok (Raise _) => false
            | Raise NoSuchElementException => true
            | Raise _ => false
            end
          else false
      end
  end.

(** The answers of one Chrome instance. *)
Record Browser : Type := mkBrowser {
  (** the cookies file: [None] when it does not exist, else the outcome
      of [open] and [pickle.load] *)
  cookies_file : option (res (list string));
  (** [driver.get("https://collabstr.com/")] *)
  get_home : res unit;
  (** [driver.refresh()] *)
  refresh : res unit;
  (** the page after the cookies are added and the page is refreshed *)
  page_after_cookies : Page;
  (** [driver.get("https://collabstr.com/login")] *)
  get_login : res unit;
  (** [wait.until(EC.presence_of_element_located(locator))] *)
  wait_present : locator -> res unit;
  (** [find_element(By.CSS_SELECTOR, "input[type='password']")] *)
  find_password : res unit;
  (** the two [clear()] and [send_keys(...)] on the fields *)
  fill_form : res unit;
  (** [WebDriverWait(driver, 5).until(EC.element_to_be_clickable(locator))] *)
  wait_clickable : locator -> res unit;
  (** [password_field.send_keys(Keys.RETURN)] *)
  press_return : res unit;
  (** [login_button.click()] *)
  click : res unit;
  (** the page seven seconds after the form is sent *)
  page_after_submit : Page;
  (** [driver.quit()] *)
  quit : res unit
}.

Definition email_selectors : list locator :=
  [ (By_ID, "email"); (By_NAME, "email");
    (By_CSS_SELECTOR, "input[type='email']") ].

Definition login_selectors : list locator :=
  [ (By_CSS_SELECTOR, "button.submit.btn");
    (By_CSS_SELECTOR, "button[type='submit']") ].

(** [load_cookies]: every failure is [False]; an [add_cookie] that fails
    is skipped. *)
Definition load_cookies (b : Browser) : bool :=
  match cookies_file b with
  | None => false
  | Some (Raise _) => false
  | Some (Ok cookies) =>
      match get_home b with
      | Raise _ => false
      | Ok _ =>
          match refresh b with
          | Raise _ => false
          | Ok _ => is_logged_in (page_after_cookies b)
          end
      end
  end.

(** The loop over [email_selectors]: [Some true] when a field is
    present, [Some false] when a wait raises something else than
    [TimeoutException], [None] when all waits time out. *)
Fixpoint first_present (b : Browser) (ls : list locator) : option bool :=
  match ls with
  | [] => None
  | l :: rest =>
      match wait_present b l with
      | Ok _ => Some true
      | Raise TimeoutException => first_present b rest
      | Raise _ => Some false
      end
  end.

(** The loop over [login_selectors]: any exception moves on. *)
Fixpoint first_clickable (b : Browser) (ls : list locator) : bool :=
  match ls with
  | [] => false
  | l :: rest =>
      match wait_clickable b l with
      | Ok _ => true
      | Raise _ => first_clickable b rest
      end
  end.

(** The [try] block of [login]: [true] when it reaches
    [return self.driver], [false] when it raises. *)
Definition login_form (b : Browser) : bool :=
  match first_present b email_selectors with
  | Some true =>
      match find_password b with
      | Raise _ => false
      | Ok _ =>
          match fill_form b with
          | Raise _ => false
          | Ok _ =>
              let sent :=
                if first_clickable b login_selectors then click b
                else press_return b in
              match sent with
              | Raise _ => false
              | Ok _ => is_logged_in (page_after_submit b)
              end
          end
      end
  | _ => false
  end.

Inductive error : Type :=
| ValueError
| LoginError
| Selenium (e : exn).

Inductive outcome (A : Type) : Type :=
| Return (a : A)
| Throw (e : error).

Arguments Return {A} a.
Arguments Throw {A} e.

(** The session object.  [launches] counts the calls of
    [webdriver.Chrome]. *)
Record T : Type := mkT {
  email : option string;
  password : option string;
  driver : option (nat * Browser);
  logged_in : bool;
  launches : nat
}.

Definition truthy (o : option string) : bool :=
  match o with Some s => Str.truthy s | None => false end.

(** [a or b] on optional strings. *)
Definition or_else (a b : option string) : option string :=
  if truthy a then a else b.

(** [__init__], with the two environment variables. *)
Definition init (email password env_email env_password : option string)
    : T :=
  mkT (or_else email env_email) (or_else password env_password)
      None false 0.

Section Methods.

(** [create_driver] at each launch. *)
Context (chrome : nat -> res Browser).

(** [login].  [save_cookies], called on success, only writes the cookies
    file and swallows every error; the file is part of what a later
    [Browser] reports, so the call leaves no trace here. *)
Definition login (s : T) : outcome (nat * Browser) * T :=
  if negb (truthy (email s)) || negb (truthy (password s))
  then (Throw ValueError, s)
  else
    let n := launches s in
    match chrome n with
    | Raise e =>
        (Throw (Selenium e),
         mkT (email s) (password s) (driver s) (logged_in s) (S n))
    | Ok b =>
        let d := (n, b) in
        if load_cookies b
        then (Return d, mkT (email s) (password s) (Some d) true (S n))
        else
          match get_login b with
          | Raise e =>
              (Throw (Selenium e),
               mkT (email s) (password s) (Some d) (logged_in s) (S n))
          | Ok _ =>
              if login_form b
              then (Return d, mkT (email s) (password s) (Some d) true (S n))
              else (Throw LoginError,
                    mkT (email s) (password s) (Some d) (logged_in s) (S n))
          end
    end.

Definition get_authenticated_driver (s : T) : outcome (nat * Browser) * T :=
  match driver s with
  | Some d => if logged_in s then (Return d, s) else login s
  | None => login s
  end.

Definition close (s : T) : outcome unit * T :=
  match driver s with
  | Some (n, b) =>
      match quit b with
      | Ok _ => (Return tt, mkT (email s) (password s) None false (launches s))
      | Raise e => (Throw (Selenium e), s)
      end
  | None => (Return tt, s)
  end.

(** A call of one of the three methods, and the session after a sequence
    of calls. *)
Inductive call : Type := Login | GetAuthenticatedDriver | Close.

Definition after_call (s : T) (c : call) : T :=
  match c with
  | Login => snd (login s)
  | GetAuthenticatedDriver => snd (get_authenticated_driver s)
  | Close => snd (close s)
  end.

Definition after_calls (s : T) (cs : list call) : T :=
  foldl after_call s cs.

End Methods.

End Session.


(** Concrete browsers used to evaluate the session. *)
Module SessionScenario.

(** A page with the dashboard link. *)
Definition page_dashboard : Session.Page :=
  Session.mkPage (Ok "https://collabstr.com/login?next=/dashboard")
    (fun l => if String.eqb (snd l) "a[href*='/dashboard']"
              then Ok (Ok true) else Raise NoSuchElementException).

(** The login page, with nothing that [is_logged_in] looks for. *)
Definition page_login : Session.Page :=
  Session.mkPage (Ok "https://collabstr.com/Login")
    (fun _ => Raise NoSuchElementException).

(** A browser that finds valid cookies. *)
Definition browser_with_cookies : Session.Browser :=
  Session.mkBrowser (Some (Ok ["session=1"])) (Ok tt) (Ok tt) page_dashboard
    (Ok tt) (fun _ => Ok tt) (Ok tt) (Ok tt) (fun _ => Ok tt) (Ok tt) (Ok tt)
    page_dashboard (Ok tt).

(** A browser without cookies whose form is rejected. *)
Definition browser_rejected : Session.Browser :=
  Session.mkBrowser None (Ok tt) (Ok tt) page_login
    (Ok tt) (fun _ => Ok tt) (Ok tt) (Ok tt) (fun _ => Ok tt) (Ok tt) (Ok tt)
    page_login (Ok tt).

(** The first launch is rejected, the later ones find cookies. *)
Definition chrome (n : nat) : res Session.Browser :=
  match n with
  | O => Ok browser_rejected
  | _ => Ok browser_with_cookies
  end.

Definition session : Session.T :=
  Session.init (Some "jane@studio.io") (Some "secret") None None.

End SessionScenario.

(** ** Plain URLs *)

(** A URL that is the text [scheme://netloc path?query] of its own parsed
    parts, which is what [rebuild_query] writes: it has no fragment and no
    parameter that parsing drops or rewrites, and the values of a key stand
    next to one another. *)
Definition plain_url (lib : UrlLib) (url : string) : Prop :=
  let parsed := urlparse lib url in
  url =
    scheme parsed +:+ "://" +:+ netloc parsed +:+ path parsed +:+ "?"
    +:+ render_query (parse_qs lib (query parsed)).

(** ** The bio page of a handle *)

(** The address of the bio page that [fetch_instagram_email_selenium]
    visits for a handle. *)
Definition bio_url (handle : string) : string :=
  "https://www.instagram.com/"
  +:+ Str.strip (Str.lstrip_by (Char.eqb "@") handle) +:+ "/".

(** The email that a page source yields: its first email-shaped text, when
    [validate_email] accepts it. *)
Definition page_email (src : string) : string :=
  match Re.search_group0 EMAIL_REGEX src with
  | Some e => if validate_email e then e else ""
  | None => ""
  end.

(** The source of the bio page that a scraper in state [s] is shown for
    [handle] at its next call: none when it holds no Instagram browser and
    cannot start one, or when the page does not load. *)
Definition bio_page (w : World) (s : Scraper) (handle : string)
    : option string :=
  let t := (trace s ++ [CallBio handle])%list in
  match (if instagram_driver s then Ok tt else w_chrome w t) with
  | Ok _ =>
      match w_instagram w t (bio_url handle) with
      | Ok src => Some src
      | Raise _ => None
      end
  | Raise _ => None
  end.

(** A bio page that shows a contact address. *)
Definition bio_with_contact : string :=
  "<span>Bookings: contact@janestudio.io</span>".

(** ** Further pages *)

Module Pages.

(** A detail page whose title passes the role check of both categories,
    without anchors, on which the scroll script raises. *)
Definition profile_scroll_fails : ProfilePage :=
  mkProfile (Ok tt) (Ok "UGC Video Creator") (Raise WebDriverException)
            (Ok []).

End Pages.

(** * Properties *)

(** ** The embedding on concrete inputs *)

Example validate_email_examples :
  validate_email "a@b.co" = true
  ∧ validate_email "  Jane@Studio.IO " = true
  ∧ validate_email "x@example.com" = false
  ∧ validate_email "test@foo.org" = false
  ∧ validate_email "a@b.c" = false
  ∧ validate_email "" = false.
Proof. vm_compute. done. Qed.

Example email_search_examples :
  Re.search_group0 EMAIL_REGEX "mail me: jane@studio.io now"
    = Some "jane@studio.io"
  ∧ Re.search_group0 EMAIL_REGEX "a@b.co.uk9" = Some "a@b.co"
  ∧ Re.search_group0 EMAIL_REGEX "a@b.c.def_" = None.
Proof. vm_compute. done. Qed.

Example validate_heading_for_role_examples :
  validate_heading_for_role "Top UGC Creator" "ugc" = true
  ∧ validate_heading_for_role "Video Editor Pro" "ugc" = false
  ∧ validate_heading_for_role "" "video_editor" = false
  ∧ validate_heading_for_role "UGC creator" "photographer" = false.
Proof. vm_compute. done. Qed.

Example paginate_urls_examples :
  paginate_urls Plain.lib 3 "https://x/y?page=2"
    = ["https://x/y?page=2"; "https://x/y?page=3"; "https://x/y?page=4"]
  ∧ paginate_urls Plain.lib 3 "https://x/y"
    = ["https://x/y"; "https://x/y?pg=2"; "https://x/y?pg=3"]
  ∧ paginate_urls Plain.lib 2 UGC_URL
    = [UGC_URL; "https://collabstr.com/influencers?c=ugc&pg=2"]
  ∧ paginate_urls Plain.lib 2 "https://x/y?a=1&page=7&a=3"
    = ["https://x/y?a=1&page=7&a=3"; "https://x/y?a=1&a=3&page=8"].
Proof. vm_compute. done. Qed.

Example extract_from_card_examples :
  extract_from_card Scenario.card_both_roles
    = mkRow Scenario.jane_url "@jane" "Jane" "UGC Video Creator"
            "jane@studio.io" "" ""
  ∧ extract_from_card Scenario.card_without_heading
    = mkRow Scenario.jane_url "@jane" "Jane" "" "" "" ""
  ∧ extract_from_card Scenario.card_without_link = empty_row.
Proof. vm_compute. done. Qed.

Example first_handle_examples :
  first_handle [ Ok (Some "https://www.instagram.com/p/Cabc/");
                 Ok (Some "https://instagram.com/Collabstr");
                 Raise WebDriverException; Ok None;
                 Ok (Some "https://instagram.com/jane.doe?hl=en");
                 Ok (Some "https://instagram.com/other") ]
    = Some "jane.doe"
  ∧ first_handle [Ok (Some "https://instagram.com/reels/")] = None.
Proof. vm_compute. done. Qed.

(** ** Reasoning about the monad *)

Ltac unfold_monad :=
  unfold bind, ret, raise, lift, gets, modify, try_except in *.

Lemma evolves_refl s : evolves s [] s.
Proof. unfold evolves. rewrite app_nil_r. tauto. Qed.

Lemma evolves_trans s1 e1 s2 e2 s3 :
  evolves s1 e1 s2 → evolves s2 e2 s3 → evolves s1 (e1 ++ e2)%list s3.
Proof.
  unfold evolves. intros (?&?&?&?&?&?&?&Ht1) (?&?&?&?&?&?&?&Ht2).
  rewrite Ht2, Ht1, app_assoc. repeat split; try congruence. auto.
Qed.

Lemma evolves_log s ev : evolves s [ev] (log_call ev s).
Proof. unfold evolves. simpl. tauto. Qed.

Lemma evolves_set_driver s : evolves s [] (set_driver s).
Proof. unfold evolves. simpl. rewrite app_nil_r. tauto. Qed.

Lemma evolves_set_instagram_driver s : evolves s [] (set_instagram_driver s).
Proof. unfold evolves. simpl. rewrite app_nil_r. tauto. Qed.

Section PipelineFacts.

Context (lib : UrlLib) (w : World).

Lemma get_authenticated_driver_ready s :
  driver s = true → get_authenticated_driver w s = (Ok tt, s).
Proof. intros H. unfold get_authenticated_driver. by rewrite H. Qed.

Lemma get_authenticated_driver_evolves s r s' :
  get_authenticated_driver w s = (r, s') → evolves s [] s'.
Proof.
  unfold get_authenticated_driver. destruct (driver s) eqn:Hd.
  - intros [= <- <-]. apply evolves_refl.
  - destruct (w_login w (trace s)); intros [= <- <-].
    + apply evolves_set_driver.
    + apply evolves_refl.
Qed.

(** [extract_instagram_from_profile] always returns a pair, and records
    exactly one call. *)
Lemma extract_instagram_from_profile_returns url role s :
  ∃ h b s', extract_instagram_from_profile w url role s = (Ok (h, b), s')
            ∧ evolves s [CallProfile url] s'.
Proof.
  unfold extract_instagram_from_profile. unfold_monad. cbn.
  destruct (get_authenticated_driver w (log_call (CallProfile url) s))
    as [r s1] eqn:Hg.
  pose proof (get_authenticated_driver_evolves _ _ _ Hg) as Hev.
  pose proof (evolves_trans _ _ _ _ _ (evolves_log s (CallProfile url)) Hev)
    as Hev'.
  destruct r as [[]|e].
  - destruct (profile_page_result _ _) as [[h b]|e]; eauto.
  - eauto.
Qed.

(** With the driver at hand, the result is that of the loaded page, and
    any exception of the page is turned into [("", False)]. *)
Lemma extract_instagram_from_profile_page url role s :
  driver s = true →
  fst (extract_instagram_from_profile w url role s) =
    match profile_page_result
            (w_profile w (trace s ++ [CallProfile url])%list url) role with
    | Ok r => Ok r
    | Raise _ => Ok ("", false)
    end.
Proof.
  intros Hd. unfold extract_instagram_from_profile. unfold_monad. cbn.
  rewrite get_authenticated_driver_ready by done. cbn.
  by destruct (profile_page_result _ _).
Qed.

Lemma card_data_list_filter role seen cards :
  card_data_list role seen cards =
  filter (fun d => passes_filters role seen d = true)
         ((fun el => set_role_type (extract_from_card el) role) <$> cards).
Proof.
  induction cards as [|el rest IH]; [done|].
  cbn [card_data_list fmap list_fmap]. rewrite filter_cons, <- IH.
  set (d := set_role_type (extract_from_card el) role) in *.
  destruct (decide (passes_filters role seen d = true)) as [Hp|Hp];
    unfold passes_filters in Hp;
    destruct (Str.truthy (heading d) &&
              negb (validate_heading_for_role (heading d) role));
    destruct (Str.truthy (profile_url d) && Str.truthy (name d));
    destruct (String.eqb role "video_editor" &&
              bool_decide (profile_url d ∈ seen));
    cbn in Hp; done.
Qed.

(** The second loop never raises, calls the detail page of every
    candidate in order, and returns candidates of its input. *)
Lemma resolve_cards_returns role ds s :
  ∃ out s', resolve_cards w role ds s = (Ok out, s')
    ∧ evolves s ((fun d => CallProfile (profile_url d)) <$> ds) s'
    ∧ (length out ≤ length ds)%nat.
Proof.
  revert s. induction ds as [|d rest IH]; intros s.
  - exists [], s. split; [done|]. split; [apply evolves_refl|done].
  - cbn [resolve_cards]. unfold bind at 1.
    destruct (extract_instagram_from_profile_returns (profile_url d)
                (Some role) s) as (h & b & s1 & -> & Hev1).
    destruct (IH s1) as (out & s2 & Hrest & Hev2 & Hlen).
    pose proof (evolves_trans _ _ _ _ _ Hev1 Hev2) as Hev.
    destruct b; cbn.
    + unfold bind, ret. rewrite Hrest. exists (set_instagram_handle d h :: out), s2.
      split; [done|]. split; [done|]. cbn. lia.
    + rewrite Hrest. exists out, s2. split; [done|]. split; [done|].
      cbn. lia.
Qed.

(** [parse_search_page] never raises once the driver is set; it records
    its own call and then only calls of detail pages. *)
Lemma parse_search_page_returns url role s :
  driver s = true →
  ∃ rows s' evs, parse_search_page w url role s = (Ok rows, s')
    ∧ evolves s (CallListing url role :: evs) s'
    ∧ Forall is_profile_call evs.
Proof.
  intros Hd. unfold parse_search_page. unfold_monad.
  pose proof (evolves_log s (CallListing url role)) as Hev0.
  set (s0 := log_call (CallListing url role) s) in *.
  assert (Hd0 : driver s0 = true) by apply Hd.
  rewrite (get_authenticated_driver_ready s0 Hd0).
  destruct (lp_load (w_listing w (trace s0) url)) as [[]|e].
  - destruct (resolve_cards_returns role
                (card_data_list role (ugc_profile_urls s0)
                   (find_cards (w_listing w (trace s0) url))) s0)
      as (out & s1 & -> & Hev1 & _).
    eexists out, s1, _. split; [done|]. split.
    + apply (evolves_trans _ _ _ _ _ Hev0 Hev1).
    + apply Forall_fmap, Forall_forall. by intros.
  - exists [], s0, []. split; [done|]. split; [done|]. constructor.
Qed.

End PipelineFacts.

(** ** EmailValidator *)

(** What [validate_email] does guarantee: the length bounds on the trimmed,
    lowercased text and on its two parts, and a match of [EMAIL_REGEX] that
    starts at the first character. *)
Lemma validate_email_bounds e :
  validate_email e = true →
  let e' := Str.lower (Str.strip e) in
  is_Some (Re.match_ EMAIL_REGEX e') ∧
  (6 <= Str.len e' <= 254)%Z ∧
  ∃ local domain,
    Str.split "@" e' = [local; domain] ∧
    (1 <= Str.len local <= 64)%Z ∧
    (1 <= Str.len domain <= 253)%Z ∧
    Str.contains "." domain = true ∧
    (2 <= Str.len (Str.last (Str.split "." domain)))%Z.
Proof.
  unfold validate_email. cbv zeta.
  destruct (Str.truthy e); [|done]. cbn [negb].
  set (e' := Str.lower (Str.strip e)).
  case_bool_decide as Hm; [|done]. cbn [negb].
  destruct (existsb _ invalid_patterns); [done|].
  destruct (Z.ltb_spec (Str.len e') 6); [done|].
  destruct (Z.ltb_spec 254 (Str.len e')); [done|]. cbn [orb].
  destruct (Str.split "@" e') as [|local [|domain [|]]]; try done.
  destruct (Z.ltb_spec 64 (Str.len local)); [done|].
  destruct (Str.truthy local) eqn:Hl; [|done]. cbn [orb negb].
  destruct (Z.ltb_spec 253 (Str.len domain)); [done|].
  destruct (Str.truthy domain) eqn:Hdm; [|done].
  destruct (Str.contains "." domain) eqn:Hdot; [|done]. cbn [orb negb].
  destruct (Z.ltb_spec (Str.len (Str.last (Str.split "." domain))) 2);
    [done|].
  intros _. split; [done|]. split; [lia|].
  exists local, domain. split; [done|].
  assert (Hpos : ∀ s, Str.truthy s = true → (1 <= Str.len s)%Z).
  { intros [|c s]; [done|]. unfold Str.len. cbn. lia. }
  repeat split; try lia; auto.
Qed.

(** C4 (the code departs from the claim).  [validate_email] tests
    [EMAIL_REGEX] with [match], which anchors the pattern at the start of
    the text only: "a@b.co xyz" is accepted although the pattern does not
    match it in its entirety. *)
Theorem validate_email_accepts_trailing_text :
  validate_email "a@b.co xyz" = true
  ∧ Str.lower (Str.strip "a@b.co xyz") = "a@b.co xyz"
  ∧ Re.fullmatch EMAIL_REGEX "a@b.co xyz" = false
  ∧ Re.match_ EMAIL_REGEX "a@b.co xyz" = Some (6, None).
Proof. vm_compute. done. Qed.

(** ** RoleValidator and the coarse filter *)

Lemma validate_heading_for_role_empty role :
  validate_heading_for_role "" role = false.
Proof. done. Qed.

Section ListingFacts.

Context (w : World).

(** The calls made by [parse_search_page] on a page that loads: its own,
    then the detail page of every candidate, in order. *)
Lemma parse_search_page_calls url role s :
  let page := w_listing w (trace s ++ [CallListing url role])%list url in
  driver s = true → lp_load page = Ok tt →
  trace (snd (parse_search_page w url role s)) =
    (trace s ++ CallListing url role ::
       ((fun d => CallProfile (profile_url d)) <$>
          card_data_list role (ugc_profile_urls s) (find_cards page)))%list.
Proof.
  intros page Hd Hload. unfold parse_search_page. unfold_monad.
  set (s0 := log_call (CallListing url role) s) in *.
  assert (Hd0 : driver s0 = true) by apply Hd.
  rewrite (get_authenticated_driver_ready w s0 Hd0).
  change (w_listing w (trace s0) url) with page. rewrite Hload.
  destruct (resolve_cards_returns w role
              (card_data_list role (ugc_profile_urls s0) (find_cards page))
              s0) as (out & s1 & -> & Hev1 & _).
  destruct Hev1 as (_&_&_&_&_&_&_&Ht). cbn [snd]. rewrite Ht.
  unfold s0. cbn. by rewrite <- app_assoc.
Qed.

(** C2 (corrected).  A card whose extracted heading is empty is not
    subject to the coarse role filter: [validate_heading_for_role] is
    false on the empty heading, yet the guard of the filter skips the test,
    so the card stays a candidate when its profile URL and name are
    non-empty (and, for [video_editor], its URL is not in
    [ugc_profile_urls]), and its detail page is requested. *)
Theorem empty_heading_card_is_resolved url role s el :
  let page := w_listing w (trace s ++ [CallListing url role])%list url in
  let d := set_role_type (extract_from_card el) role in
  driver s = true → lp_load page = Ok tt → el ∈ find_cards page →
  heading d = "" →
  Str.truthy (profile_url d) = true → Str.truthy (name d) = true →
  (role = "video_editor" → profile_url d ∉ ugc_profile_urls s) →
  validate_heading_for_role (heading d) role = false
  ∧ d ∈ card_data_list role (ugc_profile_urls s) (find_cards page)
  ∧ CallProfile (profile_url d)
      ∈ trace (snd (parse_search_page w url role s)).
Proof.
  intros page d Hd Hload Hel Hh Hu Hn Hseen.
  assert (Hin : d ∈ card_data_list role (ugc_profile_urls s)
                      (find_cards page)).
  { rewrite card_data_list_filter. apply list_elem_of_filter. split.
    - unfold passes_filters. rewrite Hh, Hu, Hn. cbn.
      destruct (String.eqb_spec role "video_editor") as [->|]; [|done].
      cbn. rewrite bool_decide_eq_false_2; [done|]. by apply Hseen.
    - apply list_elem_of_fmap. by exists el. }
  split; [by rewrite Hh|]. split; [done|].
  rewrite parse_search_page_calls by done.
  apply elem_of_app. right. apply list_elem_of_further.
  apply list_elem_of_fmap. by exists d.
Qed.

(** ** ProfileResolver *)

(** C3 (corrected).  With an expected role and the driver at hand,
    [extract_instagram_from_profile] returns [("", False)] when the page
    does not load, when the heading of the detail page is found and fails
    the role check, when the heading lookup raises anything other than
    [NoSuchElementException], and when a scroll script raises.  When no
    heading element is found and the scroll scripts run, the role is not
    confirmed but the anchors are still scanned: the handle found there, if
    any, is returned with [False], and the empty handle when the anchor
    lookup raises.  When the role check passes, the scroll scripts run and
    no anchor yields an accepted handle, the result is [("", True)]. *)
Theorem extract_instagram_from_profile_role_recheck url role s :
  let page := w_profile w (trace s ++ [CallProfile url])%list url in
  let out := fst (extract_instagram_from_profile w url (Some role) s) in
  Str.truthy role = true → driver s = true →
  (∀ e, pp_load page = Raise e → out = Ok ("", false))
  ∧ (∀ t, pp_load page = Ok tt → pp_heading page = Ok t →
       validate_heading_for_role (Str.strip t) role = false →
       out = Ok ("", false))
  ∧ (∀ e, pp_heading page = Raise e → e ≠ NoSuchElementException →
       out = Ok ("", false))
  ∧ (∀ e, pp_scroll page = Raise e → out = Ok ("", false))
  ∧ (∀ elems, pp_load page = Ok tt →
       pp_heading page = Raise NoSuchElementException →
       pp_scroll page = Ok tt → pp_anchors page = Ok elems →
       out = Ok (default "" (first_handle elems), false))
  ∧ (∀ e, pp_load page = Ok tt →
       pp_heading page = Raise NoSuchElementException →
       pp_scroll page = Ok tt → pp_anchors page = Raise e →
       out = Ok ("", false))
  ∧ (∀ t, pp_load page = Ok tt → pp_heading page = Ok t →
       validate_heading_for_role (Str.strip t) role = true →
       pp_scroll page = Ok tt →
       (∀ elems, pp_anchors page = Ok elems → first_handle elems = None) →
       out = Ok ("", true)).
Proof.
  intros page out Hrole Hd. subst out.
  rewrite extract_instagram_from_profile_page by done. fold page.
  unfold profile_page_result, heading_check, role_given. rewrite Hrole.
  repeat split.
  - intros e ->. done.
  - intros t -> -> Hv. cbn. by rewrite Hv.
  - intros e -> Hne. destruct (pp_load page) as [[]|]; [|done].
    cbn. by destruct e.
  - intros e ->. destruct (pp_load page) as [[]|]; [|done]. cbn.
    destruct (pp_heading page) as [t|[]]; cbn; try done.
    by destruct (validate_heading_for_role (Str.strip t) role).
  - intros elems -> -> -> ->. cbn. by destruct (first_handle elems).
  - intros e -> -> -> ->. done.
  - intros t -> -> Hv -> Hnone. cbn. rewrite Hv. cbn.
    destruct (pp_anchors page) as [elems|e]; [|done].
    by rewrite (Hnone elems).
Qed.

End ListingFacts.

(** C2, as stated, fails: a card without a title element is extracted with
    an empty heading, is kept as a candidate, and its detail page is
    requested. *)
Lemma empty_heading_card_not_dropped :
  let w := Scenario.site [Scenario.card_without_heading]
                         Scenario.profile_both_roles "" in
  heading (extract_from_card Scenario.card_without_heading) = ""
  ∧ validate_heading_for_role "" "ugc" = false
  ∧ length (card_data_list "ugc" ∅ [Scenario.card_without_heading]) = 1%nat
  ∧ trace (snd (parse_search_page w UGC_URL "ugc" (Scenario.ready 1 10))) =
      [CallListing UGC_URL "ugc"; CallProfile Scenario.jane_url].
Proof. vm_compute. done. Qed.

Lemma empty_heading_card_is_resolved_witness :
  let w := Scenario.site [Scenario.card_without_heading]
                         Scenario.profile_both_roles "" in
  let s := Scenario.ready 1 10 in
  let d := set_role_type (extract_from_card Scenario.card_without_heading)
                         "ugc" in
  driver s = true ∧ heading d = ""
  ∧ Str.truthy (profile_url d) = true ∧ Str.truthy (name d) = true
  ∧ CallProfile (profile_url d)
      ∈ trace (snd (parse_search_page w UGC_URL "ugc" s)).
Proof.
  intros w s d.
  split; [reflexivity|]. split; [reflexivity|].
  split; [reflexivity|]. split; [reflexivity|].
  apply (empty_heading_card_is_resolved w UGC_URL "ugc" s
           Scenario.card_without_heading).
  - reflexivity.
  - reflexivity.
  - constructor.
  - reflexivity.
  - reflexivity.
  - reflexivity.
  - intros H. discriminate H.
Defined.

(** C3, as stated, fails on both of its parts.  On a detail page without
    a title element the handle of the Instagram anchor is returned, with
    [False], not the empty handle.  On a detail page whose title passes the
    role check and that has no anchor, a scroll script that raises makes
    the result [("", False)], not [("", True)]: the scripts run inside the
    outer [try]. *)
Lemma missing_heading_returns_handle :
  (let w := Scenario.site [] Scenario.profile_without_heading "" in
   fst (extract_instagram_from_profile w Scenario.jane_url (Some "ugc")
          (Scenario.ready 1 10)) = Ok ("jane", false)
   ∧ pp_heading Scenario.profile_without_heading
       = Raise NoSuchElementException
   ∧ @Ok (string * bool) ("jane", false) ≠ Ok ("", false))
  ∧ (let w := Scenario.site [] Pages.profile_scroll_fails "" in
     fst (extract_instagram_from_profile w Scenario.jane_url (Some "ugc")
            (Scenario.ready 1 10)) = Ok ("", false)
     ∧ (∃ t, pp_heading Pages.profile_scroll_fails = Ok t
             ∧ validate_heading_for_role (Str.strip t) "ugc" = true)
     ∧ pp_anchors Pages.profile_scroll_fails = Ok []
     ∧ @Ok (string * bool) ("", false) ≠ Ok ("", true)).
Proof.
  split.
  - split; [by vm_compute|]. split; [done|]. discriminate.
  - split; [by vm_compute|]. split; [|split; [done|discriminate]].
    eexists. split; [reflexivity|]. by vm_compute.
Qed.

Lemma extract_instagram_from_profile_role_recheck_witness :
  let w := Scenario.site [] Scenario.profile_both_roles "" in
  let s := Scenario.ready 1 10 in
  Str.truthy "ugc" = true ∧ driver s = true
  ∧ fst (extract_instagram_from_profile w Scenario.jane_url (Some "ugc") s)
      = Ok ("", true).
Proof.
  intros w s. split; [reflexivity|]. split; [reflexivity|].
  destruct (extract_instagram_from_profile_role_recheck w Scenario.jane_url
              "ugc" s) as (_ & _ & _ & _ & _ & _ & Hpass);
    [reflexivity|reflexivity|].
  apply (Hpass "UGC Video Creator"); try reflexivity.
  intros elems Helems. injection Helems as <-. reflexivity.
Defined.

(** ** PaginationPlanner *)

Lemma py_range_length a b : length (py_range a b) = Z.to_nat (b - a).
Proof. apply length_seqZ. Qed.

Lemma py_range_lookup a b j :
  (j < Z.to_nat (b - a))%nat →
  py_range a b !! j = Some (a + Z.of_nat j)%Z.
Proof. intros H. apply lookup_seqZ_lt. lia. Qed.

Lemma dict_set_same_but k v (q : dict (list string)) :
  is_Some (dict_get k q) →
  dict_get k (dict_set k v q) = Some v ∧ same_but k q (dict_set k v q).
Proof.
  induction q as [|[k' v'] q IH]; cbn.
  - by intros [? ?].
  - destruct (String.eqb_spec k k') as [->|Hne]; cbn.
    + intros _. rewrite String.eqb_refl. split; [done|].
      constructor; [by split|]. apply Forall2_same_length_lookup.
      split; [done|]. intros i x y Hx Hy.
      rewrite Hx in Hy. by injection Hy as ->.
    + intros Hs. destruct (IH Hs) as [Hg Hf].
      destruct (String.eqb_spec k k'); [done|].
      split; [done|]. constructor; [by split|done].
Qed.

Section Pagination.

Context (lib : UrlLib).

Lemma rebuild_query_page parsed i :
  rebuild_query lib parsed [("page", i)] =
    scheme parsed +:+ "://" +:+ netloc parsed +:+ path parsed +:+ "?"
    +:+ render_query
          (dict_set "page" [Str.of_Z i] (parse_qs lib (query parsed))).
Proof. done. Qed.

(** C5 (corrected).  For a page count [n >= 1] the plan starts with the
    seed and has [n - 1] more URLs.  If the query of the seed has a [page]
    parameter and the seed is a plain URL (the text
    [scheme://netloc path?query] of its own parsed parts), [start] is the
    integer value of the first [page] value, or 1 when that value is not an
    integer, and URL [j] differs from the seed in the query only: [page]
    holds the single value [start + 1 + j], and every other parameter
    keeps its place and its values.  If the query has no [page] parameter,
    URL [j] is the seed followed by [&pg=] or [?pg=] and the number
    [2 + j], with [&] when the seed has a non-empty query.  Nothing is said
    of the parameters of a seed with a [page] parameter that is not
    plain. *)
Theorem paginate_urls_plan (n : Z) (seed : string) :
  (1 <= n)%Z →
  let parsed := urlparse lib seed in
  let q := parse_qs lib (query parsed) in
  ∃ rest,
    paginate_urls lib n seed = seed :: rest
    ∧ length rest = Z.to_nat (n - 1)
    ∧ (∀ vals j, dict_get "page" q = Some vals → plain_url lib seed →
         (j < Z.to_nat (n - 1))%nat →
         let start := default 1%Z (head vals ≫= py_int lib) in
         ∃ q',
           seed =
             scheme parsed +:+ "://" +:+ netloc parsed +:+ path parsed
             +:+ "?" +:+ render_query q
           ∧ rest !! j =
               Some (scheme parsed +:+ "://" +:+ netloc parsed
                     +:+ path parsed +:+ "?" +:+ render_query q')
           ∧ dict_get "page" q' = Some [Str.of_Z (start + 1 + Z.of_nat j)]
           ∧ same_but "page" q q')
    ∧ (∀ j, dict_get "page" q = None →
         (j < Z.to_nat (n - 1))%nat →
         rest !! j =
           Some (seed +:+ (if Str.truthy (query parsed) then "&" else "?")
                 +:+ "pg=" +:+ Str.of_Z (2 + Z.of_nat j))).
Proof.
  intros Hn parsed q. unfold paginate_urls. fold parsed. fold q.
  destruct (dict_get "page" q) as [vals|] eqn:Hpage.
  - set (start := match vals with
                  | v :: _ => match py_int lib v with
                              | Some n0 => n0 | None => 1%Z end
                  | [] => 1%Z
                  end).
    eexists. split; [reflexivity|]. split.
    { rewrite length_fmap, py_range_length. f_equal. lia. }
    split; [|done].
    intros vals' j [= <-] Hplain Hj.
    assert (Hstart : default 1%Z (head vals ≫= py_int lib) = start).
    { unfold start. destruct vals as [|v ?]; [done|]. cbn.
      by destruct (py_int lib v). }
    cbv zeta. rewrite Hstart.
    exists (dict_set "page" [Str.of_Z (start + 1 + Z.of_nat j)] q).
    split; [exact Hplain|].
    rewrite list_lookup_fmap, py_range_lookup by lia. cbn.
    rewrite rebuild_query_page. fold q.
    split; [done|]. apply dict_set_same_but. by rewrite Hpage.
  - eexists. split; [reflexivity|]. split.
    { rewrite length_fmap, py_range_length. f_equal. lia. }
    split; [done|].
    intros j _ Hj. rewrite list_lookup_fmap, py_range_lookup by lia.
    done.
Qed.

End Pagination.

Lemma paginate_urls_plan_witness :
  let seed := "https://x/y?c=ugc&page=2" in
  (1 <= 3)%Z ∧ plain_url Plain.lib seed
  ∧ ∃ rest q',
      paginate_urls Plain.lib 3 seed = seed :: rest
      ∧ rest !! 0%nat = Some ("https://x/y?" +:+ render_query q')
      ∧ dict_get "page" q' = Some ["3"]
      ∧ same_but "page" [("c", ["ugc"]); ("page", ["2"])] q'.
Proof.
  intros seed. split; [lia|]. split; [reflexivity|].
  destruct (paginate_urls_plan Plain.lib 3 seed)
    as (rest & Heq & _ & Hpage & _); [lia|].
  destruct (Hpage ["2"] 0%nat) as (q' & _ & Hurl & Hval & Hsame);
    [reflexivity|reflexivity|cbn; lia|].
  exists rest, q'. split; [exact Heq|]. split; [exact Hurl|].
  split; [exact Hval|exact Hsame].
Defined.

(** C5, as stated, fails: a seed whose [page] value is not an integer is
    continued with [page=2 ...], not with an appended [pg] parameter. *)
Lemma page_without_integer_value :
  let seed := "https://x/y?page=abc" in
  dict_get "page" (Plain.parse_qs (query (Plain.urlparse seed)))
    = Some ["abc"]
  ∧ Plain.int "abc" = None
  ∧ paginate_urls Plain.lib 2 seed = [seed; "https://x/y?page=2"]
  ∧ paginate_urls Plain.lib 2 seed ≠ [seed; seed +:+ "&pg=2"].
Proof. vm_compute. repeat split; discriminate. Qed.

(** The seeds of the two categories are plain; a seed with a fragment or
    with a blank parameter is not. *)
Lemma plain_url_examples :
  plain_url Plain.lib UGC_URL ∧ plain_url Plain.lib VIDEO_URL
  ∧ plain_url Plain.lib "https://x/y?c=ugc&page=2"
  ∧ ¬ plain_url Plain.lib "https://x/y?page=2#top"
  ∧ ¬ plain_url Plain.lib "https://x/y?a=&page=2".
Proof.
  split; [reflexivity|]. split; [reflexivity|]. split; [reflexivity|].
  split; intros H; vm_compute in H; discriminate H.
Qed.

(** ** ScrapeOrchestrator: the budget of a category *)

Lemma evolves_driver s evs s' :
  evolves s evs s' → driver s = true → driver s' = true.
Proof. intros (_&_&_&_&_&_&H&_). exact H. Qed.

Lemma filter_listing_of_profile_calls evs :
  Forall is_profile_call evs → filter is_listing_call evs = [].
Proof.
  induction 1 as [|ev evs Hev _ IH]; [done|].
  rewrite filter_cons, IH. by destruct ev.
Qed.

Lemma py_take_length {A} (n : Z) (l : list A) :
  (0 <= n <= Z.of_nat (length l))%Z →
  Z.of_nat (length (py_take n l)) = n.
Proof.
  intros [H0 Hn]. unfold py_take.
  destruct (Z.leb_spec 0 n); [|lia]. rewrite length_take. lia.
Qed.

Section Budget.

Context (w : World).

(** The loop over the planned URLs, from accumulated rows within the
    budget: it returns, stays within the budget, requests a prefix of the
    planned URLs in order, and leaves URLs unrequested only when the budget
    is reached. *)
Lemma scrape_pages_budget role maxp urls : ∀ rows s,
  (0 <= maxp)%Z → driver s = true → (Z.of_nat (length rows) <= maxp)%Z →
  ∃ rows' s' evs k,
    scrape_pages w role maxp urls rows s = (Ok rows', s')
    ∧ (Z.of_nat (length rows') <= maxp)%Z
    ∧ evolves s evs s'
    ∧ filter is_listing_call evs
        = (fun u => CallListing u role) <$> take k urls
    ∧ (k = length urls ∨ Z.of_nat (length rows') = maxp).
Proof.
  induction urls as [|url rest IH]; intros rows s Hmax Hd Hlen.
  - exists rows, s, [], 0%nat. cbn. unfold ret.
    split; [done|]. split; [done|]. split; [apply evolves_refl|].
    split; [done|]. by left.
  - cbn [scrape_pages].
    destruct (Z.leb_spec maxp (Z.of_nat (length rows))) as [Hfull|Hroom].
    { exists rows, s, [], 0%nat. unfold ret.
      split; [done|]. split; [done|]. split; [apply evolves_refl|].
      split; [done|]. right. lia. }
    unfold bind at 1.
    destruct (parse_search_page_returns w url role s Hd)
      as (page_rows & s1 & evs1 & -> & Hev1 & Hprof).
    assert (Hl1 : filter is_listing_call (CallListing url role :: evs1)
                  = [CallListing url role]).
    { rewrite filter_cons. cbn.
      by rewrite filter_listing_of_profile_calls. }
    destruct (Z.leb_spec maxp (Z.of_nat (length (rows ++ page_rows))))
      as [Hfull'|Hroom'].
    { eexists _, s1, _, 1%nat. unfold ret. split; [reflexivity|].
      split; [rewrite py_take_length; lia|]. split; [exact Hev1|].
      split; [by rewrite Hl1|]. right. apply py_take_length. lia. }
    destruct (IH (rows ++ page_rows)%list s1 Hmax
                 (evolves_driver _ _ _ Hev1 Hd) ltac:(lia))
      as (rows' & s' & evs2 & k & -> & Hlen' & Hev2 & Hcalls & Hstop).
    exists rows', s', ((CallListing url role :: evs1) ++ evs2)%list, (S k).
    split; [done|]. split; [done|].
    split; [by eapply evolves_trans|].
    split; [by rewrite filter_app, Hl1, Hcalls|].
    destruct Hstop as [->|Hstop]; [by left|by right].
Qed.

(** C6 (corrected).  With a budget [max_profiles >= 0] and the driver at
    hand, [scrape_category] returns at most [max_profiles] rows.  It requests
    the planned listing pages in order and leaves planned pages unrequested
    only when the budget is reached; once the accumulated rows reach the
    budget no further page is requested; and when the rows of a page carry
    the count to the budget or beyond, the result is the first
    [max_profiles] accumulated rows. *)
Theorem scrape_category_budget lib base role maxp s :
  (0 <= maxp)%Z → driver s = true →
  let urls := paginate_urls lib (max_pages s) base in
  (∃ rows s' evs k,
     scrape_category lib w base role maxp s = (Ok rows, s')
     ∧ (Z.of_nat (length rows) <= maxp)%Z
     ∧ evolves s evs s'
     ∧ filter is_listing_call evs
         = (fun u => CallListing u role) <$> take k urls
     ∧ (k = length urls ∨ Z.of_nat (length rows) = maxp))
  ∧ (∀ pages rows0 s0, (maxp <= Z.of_nat (length rows0))%Z →
       scrape_pages w role maxp pages rows0 s0 = (Ok rows0, s0))
  ∧ (∀ url pages rows0 s0 page_rows s1,
       (Z.of_nat (length rows0) < maxp)%Z →
       parse_search_page w url role s0 = (Ok page_rows, s1) →
       (maxp <= Z.of_nat (length (rows0 ++ page_rows)))%Z →
       scrape_pages w role maxp (url :: pages) rows0 s0
         = (Ok (take (Z.to_nat maxp) (rows0 ++ page_rows)), s1)
       ∧ length (take (Z.to_nat maxp) (rows0 ++ page_rows))
           = Z.to_nat maxp).
Proof.
  intros Hmax Hd urls. split; [|split].
  - unfold scrape_category. unfold_monad. fold urls.
    apply scrape_pages_budget; [done|done|cbn; lia].
  - intros pages rows0 s0 Hfull. destruct pages as [|url rest]; [done|].
    cbn [scrape_pages].
    by destruct (Z.leb_spec maxp (Z.of_nat (length rows0))); [|lia].
  - intros url pages rows0 s0 page_rows s1 Hroom Hpage Hfull.
    cbn [scrape_pages].
    destruct (Z.leb_spec maxp (Z.of_nat (length rows0))); [lia|].
    unfold bind at 1. rewrite Hpage.
    destruct (Z.leb_spec maxp (Z.of_nat (length (rows0 ++ page_rows))));
      [|lia].
    unfold py_take. destruct (Z.leb_spec 0 maxp); [|lia].
    split; [done|]. rewrite length_take. lia.
Qed.

(** A negative budget is met at once: nothing is requested and the
    result is empty. *)
Lemma scrape_category_negative_budget lib base role maxp s :
  (maxp < 0)%Z → paginate_urls lib (max_pages s) base ≠ [] →
  scrape_category lib w base role maxp s = (Ok [], s).
Proof.
  intros Hneg Hne. unfold scrape_category. unfold_monad.
  destruct (paginate_urls lib (max_pages s) base) as [|url rest]; [done|].
  cbn [scrape_pages].
  destruct (Z.leb_spec maxp (Z.of_nat (length (@nil Row)))) as [|H];
    [done|]. cbn in H. lia.
Qed.

End Budget.

Lemma scrape_category_budget_witness :
  let w := Scenario.site [Scenario.card_both_roles; Scenario.card_both_roles]
                         Scenario.profile_both_roles "" in
  (0 <= 3)%Z ∧ driver (Scenario.ready 3 3) = true
  ∧ ∃ rows s', scrape_category Plain.lib w UGC_URL "ugc" 3
                 (Scenario.ready 3 3) = (Ok rows, s')
               ∧ (Z.of_nat (length rows) <= 3)%Z.
Proof.
  intros w. split; [lia|]. split; [reflexivity|].
  destruct (scrape_category_budget w Plain.lib UGC_URL "ugc" 3
              (Scenario.ready 3 3)) as [(rows & s' & _ & _ & Heq & Hle & _) _];
    [lia|reflexivity|].
  exists rows, s'. split; [exact Heq|exact Hle].
Defined.

(** C6, as stated for every budget, fails for a negative one, which
    [--max_profiles] accepts: the test [len(rows) >= max_profiles] holds
    before the first page, nothing is requested, and the empty result is
    longer than the budget. *)
Lemma negative_budget_is_exceeded :
  let w := Scenario.site [Scenario.card_both_roles]
                         Scenario.profile_both_roles "" in
  let s := Scenario.ready 3 (-1) in
  fst (scrape_category Plain.lib w UGC_URL "ugc" (-1) s) = Ok []
  ∧ trace (snd (scrape_category Plain.lib w UGC_URL "ugc" (-1) s)) = []
  ∧ ¬ (Z.of_nat (length (@nil Row)) <= -1)%Z.
Proof. split; [by vm_compute|]. split; [by vm_compute|]. cbn. lia. Qed.

(** ** Enrichment *)

Section Enrichment.

Context (w : World).

Lemma get_instagram_driver_evolves s r s' :
  get_instagram_driver w s = (r, s') → evolves s [] s'.
Proof.
  unfold get_instagram_driver. destruct (instagram_driver s).
  - intros [= <- <-]. apply evolves_refl.
  - destruct (w_chrome w (trace s)); intros [= <- <-].
    + apply evolves_set_instagram_driver.
    + apply evolves_refl.
Qed.

(** The resolver never raises, records its call, and returns either the
    empty string or an email that [validate_email] accepts. *)
Lemma fetch_instagram_email_selenium_returns handle s :
  ∃ found s',
    fetch_instagram_email_selenium w handle s = (Ok found, s')
    ∧ evolves s [CallBio handle] s'
    ∧ (found = "" ∨ validate_email found = true).
Proof.
  unfold fetch_instagram_email_selenium. unfold_monad.
  pose proof (evolves_log s (CallBio handle)) as Hev0.
  set (s0 := log_call (CallBio handle) s) in *.
  destruct (Str.truthy handle); cbn [negb]; [|by eauto 6].
  destruct (get_instagram_driver w s0) as [r s1] eqn:Hg.
  pose proof (get_instagram_driver_evolves _ _ _ Hg) as Hev1.
  pose proof (evolves_trans _ _ _ _ _ Hev0 Hev1) as Hev.
  destruct r as [[]|e]; [|by eauto 6].
  destruct (w_instagram w (trace s1) _) as [src|e]; [|by eauto 6].
  destruct (Re.search_group0 EMAIL_REGEX src) as [e|]; [|by eauto 6].
  destruct (validate_email e) eqn:Hv; by eauto 6.
Qed.

(** With the Instagram driver at hand and a page source [src], the
    resolver returns the first email-shaped text of [src] when
    [validate_email] accepts it, and the empty string otherwise. *)
Lemma fetch_instagram_email_selenium_source handle s src :
  Str.truthy handle = true → instagram_driver s = true →
  w_instagram w (trace s ++ [CallBio handle])%list
    ("https://www.instagram.com/"
     +:+ Str.strip (Str.lstrip_by (Char.eqb "@") handle) +:+ "/") = Ok src →
  fst (fetch_instagram_email_selenium w handle s) =
    Ok (match Re.search_group0 EMAIL_REGEX src with
        | Some e => if validate_email e then e else ""
        | None => ""
        end).
Proof.
  intros Hh Hd Hsrc. unfold fetch_instagram_email_selenium. unfold_monad.
  rewrite Hh. cbn [negb].
  set (s0 := log_call (CallBio handle) s) in *.
  unfold get_instagram_driver.
  assert (Hd0 : instagram_driver s0 = true) by apply Hd. rewrite Hd0.
  change (trace s0) with (trace s ++ [CallBio handle])%list. rewrite Hsrc.
  destruct (Re.search_group0 EMAIL_REGEX src) as [e|]; [|done].
  by destruct (validate_email e).
Qed.

(** The enrichment loop never raises; it calls the resolver exactly for
    the rows that lack an email and hold a handle, in order, and relates
    every row to the row at the same position of the result. *)
Lemma enrich_with_instagram_emails_returns rows : ∀ s,
  ∃ rows' s',
    enrich_with_instagram_emails w rows s = (Ok rows', s')
    ∧ evolves s ((fun r => CallBio (instagram_handle r))
                   <$> filter (fun r => needs_bio r = true) rows) s'
    ∧ Forall2 (enriched w) rows rows'.
Proof.
  induction rows as [|row rest IH]; intros s.
  - exists [], s. split; [done|]. split; [apply evolves_refl|constructor].
  - cbn [enrich_with_instagram_emails]. rewrite filter_cons.
    fold (needs_bio row). destruct (needs_bio row) eqn:Hneed.
    + unfold bind at 1.
      destruct (fetch_instagram_email_selenium_returns
                  (instagram_handle row) s)
        as (found & s1 & Hfetch & Hev1 & Hvalid).
      rewrite Hfetch.
      destruct (IH s1) as (rest' & s2 & Hrest & Hev2 & Hrel).
      unfold bind, ret. rewrite Hrest.
      eexists _, s2. split; [reflexivity|]. split.
      * destruct (decide _); [|done].
        apply (evolves_trans _ _ _ _ _ Hev1 Hev2).
      * constructor; [|done]. unfold enriched. rewrite Hneed.
        by exists s, found, s1.
    + destruct (IH s) as (rest' & s2 & Hrest & Hev2 & Hrel).
      unfold bind, ret. rewrite Hrest.
      eexists _, s2. split; [reflexivity|]. split.
      * destruct (decide _); [done|]. exact Hev2.
      * constructor; [|done]. unfold enriched. by rewrite Hneed.
Qed.

Lemma bio_calls_cons r rows :
  bio_calls (r :: rows) =
    if needs_bio r then CallBio (instagram_handle r) :: bio_calls rows
    else bio_calls rows.
Proof.
  unfold bio_calls. rewrite filter_cons.
  destruct (needs_bio r); by destruct (decide _).
Qed.

(** The resolver's answer is read off the bio page of the handle: the
    first email-shaped text of the page source when [validate_email]
    accepts it, and the empty string when there is no such text, when the
    Instagram browser cannot be started, and when the page does not
    load. *)
Lemma fetch_instagram_email_selenium_answer handle s :
  Str.truthy handle = true →
  fst (fetch_instagram_email_selenium w handle s) =
    Ok (from_option page_email "" (bio_page w s handle)).
Proof.
  intros Hh. unfold fetch_instagram_email_selenium, bio_page, bio_url.
  unfold_monad. rewrite Hh. cbn [negb].
  set (s0 := log_call (CallBio handle) s).
  change (trace s ++ [CallBio handle])%list with (trace s0).
  unfold get_instagram_driver.
  change (instagram_driver s0) with (instagram_driver s).
  destruct (instagram_driver s).
  - destruct (w_instagram w (trace s0) _) as [src|e]; [|done].
    cbn [from_option]. unfold page_email.
    destruct (Re.search_group0 EMAIL_REGEX src) as [e|]; [|done].
    by destruct (validate_email e).
  - destruct (w_chrome w (trace s0)) as [[]|e]; [|done].
    change (trace (set_instagram_driver s0)) with (trace s0).
    destruct (w_instagram w (trace s0) _) as [src|e]; [|done].
    cbn [from_option]. unfold page_email.
    destruct (Re.search_group0 EMAIL_REGEX src) as [e|]; [|done].
    by destruct (validate_email e).
Qed.

(** An Instagram browser, once started, is kept. *)
Lemma fetch_instagram_email_selenium_keeps_browser handle s :
  instagram_driver s = true →
  instagram_driver (snd (fetch_instagram_email_selenium w handle s)) = true.
Proof.
  intros Hd. unfold fetch_instagram_email_selenium. unfold_monad.
  set (s0 := log_call (CallBio handle) s).
  destruct (Str.truthy handle); cbn [negb]; [|done].
  unfold get_instagram_driver.
  change (instagram_driver s0) with (instagram_driver s). rewrite Hd.
  destruct (w_instagram w (trace s0) _) as [src|e]; [|done].
  destruct (Re.search_group0 EMAIL_REGEX src) as [e|]; [|done].
  by destruct (validate_email e).
Qed.

(** The state after the loop has run over a list of rows: the first row
    has its turn, then the others. *)
Lemma enrich_with_instagram_emails_state row rest s :
  snd (enrich_with_instagram_emails w (row :: rest) s) =
    snd (enrich_with_instagram_emails w rest
           (if needs_bio row
            then snd (fetch_instagram_email_selenium w
                        (instagram_handle row) s)
            else s)).
Proof.
  cbn [enrich_with_instagram_emails]. fold (needs_bio row).
  destruct (needs_bio row).
  - unfold bind at 1.
    destruct (fetch_instagram_email_selenium_returns (instagram_handle row) s)
      as (found & s1 & -> & _). cbn [snd].
    destruct (enrich_with_instagram_emails_returns rest s1)
      as (rest' & s2 & Hrest & _).
    unfold bind, ret. by rewrite Hrest.
  - destruct (enrich_with_instagram_emails_returns rest s)
      as (rest' & s2 & Hrest & _).
    unfold bind, ret. by rewrite Hrest.
Qed.

Lemma enrich_with_instagram_emails_keeps_browser rows : ∀ s,
  instagram_driver s = true →
  instagram_driver (snd (enrich_with_instagram_emails w rows s)) = true.
Proof.
  induction rows as [|row rest IH]; intros s Hd; [done|].
  rewrite enrich_with_instagram_emails_state. apply IH.
  destruct (needs_bio row); [|done].
  by apply fetch_instagram_email_selenium_keeps_browser.
Qed.

(** The answer that a row gets is the resolver's answer on the row's
    handle, asked in the state that the loop has reached after the rows
    before it. *)
Lemma enrich_with_instagram_emails_answers rows : ∀ s rows' s' i r,
  enrich_with_instagram_emails w rows s = (Ok rows', s') →
  rows !! i = Some r → needs_bio r = true →
  ∃ found si',
    fetch_instagram_email_selenium w (instagram_handle r)
      (snd (enrich_with_instagram_emails w (take i rows) s))
      = (Ok found, si')
    ∧ rows' !! i = Some (if Str.truthy found then set_email r found else r).
Proof.
  induction rows as [|row rest IH]; intros s rows' s' i r Heq Hi Hneed;
    [done|].
  cbn [enrich_with_instagram_emails] in Heq. fold (needs_bio row) in Heq.
  destruct (fetch_instagram_email_selenium_returns (instagram_handle row) s)
    as (found & s1 & Hfetch & Hev1 & _).
  destruct i as [|j]; cbn in Hi.
  - injection Hi as ->. rewrite Hneed in Heq.
    unfold bind at 1 in Heq. rewrite Hfetch in Heq.
    destruct (enrich_with_instagram_emails_returns rest s1)
      as (rest' & s2 & Hrest & _).
    unfold bind, ret in Heq. rewrite Hrest in Heq. injection Heq as <- <-.
    exists found, s1. by split.
  - cbn [take]. rewrite enrich_with_instagram_emails_state.
    destruct (needs_bio row) eqn:Hrow.
    + unfold bind at 1 in Heq. rewrite Hfetch in Heq.
      destruct (enrich_with_instagram_emails_returns rest s1)
        as (rest' & s2 & Hrest & _).
      unfold bind, ret in Heq. rewrite Hrest in Heq. injection Heq as <- <-.
      rewrite Hfetch. cbn [snd].
      exact (IH s1 rest' s2 j r Hrest Hi Hneed).
    + destruct (enrich_with_instagram_emails_returns rest s)
        as (rest' & s2 & Hrest & _).
      unfold bind, ret in Heq. rewrite Hrest in Heq. injection Heq as <- <-.
      exact (IH s rest' s2 j r Hrest Hi Hneed).
Qed.

(** C7.  The enrichment loop passes to the resolver exactly the rows whose
    email is empty and whose handle is non-empty, once each and in order.
    Such a row is resolved in the state [si] that the loop has reached
    after the rows before it, and the resolver's answer [found] is read
    off the bio page of the row's handle: the first email-shaped text of
    the page source when [validate_email] accepts it, and the empty string
    when there is none, when that text is not valid, when the Instagram
    browser cannot be had, and when the page does not load.  The row gets
    [found] as its email exactly when [found] is non-empty, and is returned
    as it was otherwise.  A browser that the loop holds is kept.  At the
    turn of a row whose email is non-empty no call is made and the row is
    returned as it was. *)
Theorem enrich_queries_only_rows_without_email rows s :
  ∃ rows' s',
    enrich_with_instagram_emails w rows s = (Ok rows', s')
    ∧ trace s' = (trace s ++ bio_calls rows)%list
    ∧ (∀ i r, rows !! i = Some r →
         Str.truthy (email r) = false →
         Str.truthy (instagram_handle r) = true →
         let si := snd (enrich_with_instagram_emails w (take i rows) s) in
         let found :=
           from_option page_email "" (bio_page w si (instagram_handle r)) in
         trace si = (trace s ++ bio_calls (take i rows))%list
         ∧ (instagram_driver s = true → instagram_driver si = true)
         ∧ fst (fetch_instagram_email_selenium w (instagram_handle r) si)
             = Ok found
         ∧ (found = "" ∨ validate_email found = true)
         ∧ rows' !! i
             = Some (if Str.truthy found then set_email r found else r))
    ∧ (∀ i r, rows !! i = Some r → Str.truthy (email r) = true →
         rows' !! i = Some r
         ∧ bio_calls (take (S i) rows) = bio_calls (take i rows)).
Proof.
  destruct (enrich_with_instagram_emails_returns rows s)
    as (rows' & s' & Heq & Hev & Hrel).
  exists rows', s'. split; [done|].
  split; [by destruct Hev as (_&_&_&_&_&_&_&?)|]. split.
  - intros i r Hr Hemail Hhandle si found.
    assert (Hneed : needs_bio r = true)
      by (unfold needs_bio; by rewrite Hemail, Hhandle).
    destruct (enrich_with_instagram_emails_answers rows s rows' s' i r
                Heq Hr Hneed) as (found' & si' & Hf & Hl).
    fold si in Hf.
    pose proof (fetch_instagram_email_selenium_answer (instagram_handle r)
                  si Hhandle) as Hans.
    fold found in Hans. rewrite Hf in Hans. cbn [fst] in Hans.
    injection Hans as ->.
    split.
    { subst si.
      destruct (enrich_with_instagram_emails_returns (take i rows) s)
        as (x & sx & -> & (_&_&_&_&_&_&_&Ht) & _). exact Ht. }
    split; [apply enrich_with_instagram_emails_keeps_browser|].
    split; [by rewrite Hf|]. split; [|done].
    destruct (fetch_instagram_email_selenium_returns (instagram_handle r) si)
      as (found' & si'' & Hf' & _ & Hvalid).
    rewrite Hf in Hf'. by injection Hf' as -> _.
  - intros i r Hr Hemail.
    assert (Hneed : needs_bio r = false)
      by (unfold needs_bio; by rewrite Hemail).
    split.
    + destruct (Forall2_lookup_l _ _ _ _ _ Hrel Hr) as (r' & Hr' & Hen).
      unfold enriched in Hen. rewrite Hneed in Hen. by subst r'.
    + rewrite (take_S_r _ _ _ Hr). unfold bio_calls.
      rewrite filter_app, fmap_app, filter_cons.
      destruct (decide _) as [Hn|_]; [congruence|].
      by rewrite filter_nil, app_nil_r.
Qed.

(** C10.  The enrichment loop returns a list of the same length whose
    rows agree, position by position, with the input on every field other
    than [email]; an email differs from the input only on a row whose
    email was empty and whose handle was non-empty. *)
Theorem enrich_changes_only_missing_emails rows s :
  ∃ rows' s',
    enrich_with_instagram_emails w rows s = (Ok rows', s')
    ∧ length rows' = length rows
    ∧ ∀ i r r', rows !! i = Some r → rows' !! i = Some r' →
        profile_url r' = profile_url r ∧ username r' = username r
        ∧ name r' = name r ∧ heading r' = heading r
        ∧ role_type r' = role_type r
        ∧ instagram_handle r' = instagram_handle r
        ∧ (email r' ≠ email r →
             email r = "" ∧ instagram_handle r ≠ "").
Proof.
  destruct (enrich_with_instagram_emails_returns rows s)
    as (rows' & s' & Heq & _ & Hrel).
  exists rows', s'. split; [done|].
  split; [symmetry; by eapply Forall2_length|].
  intros i r r' Hr Hr'.
  pose proof (Forall2_lookup_lr _ _ _ _ _ _ Hrel Hr Hr') as Hen.
  unfold enriched in Hen. destruct (needs_bio r) eqn:Hneed.
  - destruct Hen as (s1 & found & s2 & _ & _ & ->).
    unfold needs_bio in Hneed. apply andb_true_iff in Hneed as [He Hh].
    assert (email r = "") as Hempty by (by destruct (email r)).
    assert (instagram_handle r ≠ "") as Hhandle
      by (by destruct (instagram_handle r)).
    by destruct (Str.truthy found).
  - subst r'. by repeat split.
Qed.

End Enrichment.

Lemma enrich_queries_only_rows_without_email_witness :
  let w := Scenario.site [] Scenario.profile_both_roles bio_with_contact in
  let jane := mkRow Scenario.jane_url "@jane" "Jane" "UGC Creator" ""
                    "ugc" "jane" in
  let joe := mkRow "https://collabstr.com/joe" "@joe" "Joe" "UGC Creator"
                   "joe@studio.io" "ugc" "joe" in
  ∃ rows' s',
    enrich_with_instagram_emails w [joe; jane] (Scenario.ready 1 10)
      = (Ok rows', s')
    ∧ trace s' = [CallBio "jane"]
    ∧ rows' !! 0%nat = Some joe
    ∧ rows' !! 1%nat = Some (set_email jane "contact@janestudio.io").
Proof.
  intros w jane joe.
  destruct (enrich_queries_only_rows_without_email w [joe; jane]
              (Scenario.ready 1 10))
    as (rows' & s' & Heq & Ht & Hfill & Hkeep).
  exists rows', s'. split; [exact Heq|]. split; [exact Ht|]. split.
  - apply (Hkeep 0%nat joe); reflexivity.
  - destruct (Hfill 1%nat jane) as (_ & _ & _ & _ & Hl);
      [reflexivity|reflexivity|reflexivity|].
    cbv zeta in Hl. set (found := from_option _ _ _) in Hl.
    assert (E : found = "contact@janestudio.io") by (by vm_compute).
    rewrite E in Hl. exact Hl.
Defined.

(** ** Export *)

Lemma truthy_nonempty s : Str.truthy s = true ↔ s ≠ "".
Proof. by destruct s. Qed.

Lemma with_email_select_columns rows :
  with_email (select_columns rows) = exported rows.
Proof.
  unfold with_email, select_columns, exported.
  induction rows as [|r rows IH]; [done|].
  cbn [fmap list_fmap]. rewrite !filter_cons. cbn [x_email].
  destruct (decide (Str.truthy (email r) = true)) as [Ht|Ht];
    destruct (decide (email r ≠ "")) as [Hn|Hn];
    rewrite truthy_nonempty in Ht; try done.
  cbn [fmap list_fmap]. by rewrite <- IH.
Qed.

Section ExportFacts.

Context (w : World).

Ltac mstep :=
  cbn -[enrich_with_instagram_emails with_email select_columns].

(** [save_csv] never raises.  It enriches both lists, then writes one file
    for each list that is not empty, the file of the first category
    first. *)
Lemma save_csv_returns s :
  ∃ s',
    save_csv w s = (Ok tt, s')
    ∧ Forall2 (enriched w) (ugc_rows s) (ugc_rows s')
    ∧ Forall2 (enriched w) (video_rows s) (video_rows s')
    ∧ files s' =
        (files s
         ++ (if nonempty (ugc_rows s)
             then [("ugc_creators.csv",
                    with_email (select_columns (ugc_rows s')))]
             else [])
         ++ (if nonempty (video_rows s)
             then [("video_editors.csv",
                    with_email (select_columns (video_rows s')))]
             else []))%list.
Proof.
  unfold save_csv, export. unfold_monad.
  destruct (ugc_rows s) as [|u0 us] eqn:Hugc.
  - (* no row in the first category *)
    destruct (video_rows s) as [|v0 vs] eqn:Hvid;
      mstep.
    { exists s. rewrite Hugc, Hvid, app_nil_r.
      repeat split; constructor. }
    rewrite Hvid. mstep.
    destruct (enrich_with_instagram_emails_returns w (v0 :: vs) s)
      as (v' & s2 & Hv & Hev2 & Hrelv).
    rewrite Hv. mstep.
    destruct Hev2 as (_&_&Hu2&_&_&Hf2&_&_).
    rewrite Hu2, Hugc. mstep.
    pose proof Hrelv as Hne.
    apply Forall2_cons_inv_l in Hne as (v0' & vs' & _ & _ & ->).
    mstep.
    eexists. split; [reflexivity|]. cbn. rewrite Hu2, Hugc, Hf2.
    split; [constructor|]. split; [done|done].
  - (* the first category has rows *)
    mstep.
    destruct (enrich_with_instagram_emails_returns w (u0 :: us) s)
      as (u' & s1 & Hu & Hev1 & Hrelu).
    rewrite Hu. mstep.
    pose proof Hrelu as Hne.
    apply Forall2_cons_inv_l in Hne as (u0' & us' & _ & _ & ->).
    destruct Hev1 as (_&_&_&Hv1&_&Hf1&_&_).
    rewrite Hv1.
    destruct (video_rows s) as [|v0 vs] eqn:Hvid;
      mstep.
    + rewrite Hv1. mstep.
      eexists. split; [reflexivity|]. cbn. rewrite Hv1, Hf1.
      split; [done|]. split; [constructor|done].
    + set (s1' := set_ugc_rows (u0' :: us') s1) in *.
      destruct (enrich_with_instagram_emails_returns w (v0 :: vs) s1')
        as (v' & s2 & Hv & Hev2 & Hrelv).
      rewrite Hv. mstep.
      destruct Hev2 as (_&_&Hu2&_&_&Hf2&_&_).
      rewrite Hu2. mstep.
      pose proof Hrelv as Hne.
      apply Forall2_cons_inv_l in Hne as (v0' & vs' & _ & _ & ->).
      mstep.
      eexists. split; [reflexivity|]. cbn. rewrite Hu2, Hf2. cbn.
      rewrite Hf1, <- app_assoc. split; [done|]. split; [done|done].
Qed.

(** C9.  [save_csv] writes one file for each category that holds rows;
    the file of a category holds, in order and projected to the columns
    [name], [email], [profile_url] and [role_type], exactly the rows of
    that category, as they are after enrichment, whose email is not
    empty.  When both categories are empty nothing is written. *)
Theorem save_csv_exports_rows_with_email s :
  ∃ s',
    save_csv w s = (Ok tt, s')
    ∧ Forall2 (enriched w) (ugc_rows s) (ugc_rows s')
    ∧ Forall2 (enriched w) (video_rows s) (video_rows s')
    ∧ files s' =
        (files s
         ++ (if nonempty (ugc_rows s)
             then [("ugc_creators.csv", exported (ugc_rows s'))] else [])
         ++ (if nonempty (video_rows s)
             then [("video_editors.csv", exported (video_rows s'))]
             else []))%list
    ∧ Forall (fun x => x_email x ≠ "") (exported (ugc_rows s'))
    ∧ Forall (fun x => x_email x ≠ "") (exported (video_rows s')).
Proof.
  destruct (save_csv_returns s) as (s' & Heq & Hu & Hv & Hf).
  exists s'. rewrite !with_email_select_columns in Hf.
  repeat (split; [done|]).
  split; unfold exported; apply Forall_fmap, Forall_forall;
    intros r Hr; by apply list_elem_of_filter in Hr as [? _].
Qed.

End ExportFacts.

(** ** The whole run *)

Section Run.

Context (lib : UrlLib) (w : World).

Lemma get_authenticated_driver_sets s s' :
  get_authenticated_driver w s = (Ok tt, s') → driver s' = true.
Proof.
  unfold get_authenticated_driver. destruct (driver s) eqn:Hd.
  - by intros [= <-].
  - destruct (w_login w (trace s)); [|done]. by intros [= <-].
Qed.

(** Whatever the budget, the loop over the planned URLs returns. *)
Lemma scrape_pages_returns role maxp urls : ∀ rows s,
  driver s = true →
  ∃ rows' s' evs,
    scrape_pages w role maxp urls rows s = (Ok rows', s')
    ∧ evolves s evs s'.
Proof.
  induction urls as [|url rest IH]; intros rows s Hd.
  - exists rows, s, []. split; [done|apply evolves_refl].
  - cbn [scrape_pages].
    destruct (maxp <=? Z.of_nat (length rows))%Z.
    { exists rows, s, []. split; [done|apply evolves_refl]. }
    unfold bind at 1.
    destruct (parse_search_page_returns w url role s Hd)
      as (page_rows & s1 & evs1 & -> & Hev1 & _).
    destruct (maxp <=? Z.of_nat (length (rows ++ page_rows)))%Z.
    { eexists _, s1, _. split; [reflexivity|exact Hev1]. }
    destruct (IH (rows ++ page_rows)%list s1 (evolves_driver _ _ _ Hev1 Hd))
      as (rows' & s' & evs2 & -> & Hev2).
    eexists rows', s', _. split; [done|]. by eapply evolves_trans.
Qed.

Lemma scrape_category_returns base role maxp s :
  driver s = true →
  ∃ rows s' evs,
    scrape_category lib w base role maxp s = (Ok rows, s')
    ∧ evolves s evs s'.
Proof.
  intros Hd. unfold scrape_category. unfold_monad.
  by apply scrape_pages_returns.
Qed.

(** [run] fills the two lists of rows and nothing else; it raises only
    when no authenticated driver can be had. *)
Lemma run_outcome s :
  ∃ r s',
    run lib w s = (r, s')
    ∧ ugc_profile_urls s' = ugc_profile_urls s
    ∧ files s' = files s
    ∧ (driver s = true ∨ w_login w (trace s) = Ok tt → r = Ok tt).
Proof.
  unfold run. unfold bind at 1.
  destruct (get_authenticated_driver w s) as [r0 s0] eqn:Hg.
  pose proof (get_authenticated_driver_evolves w _ _ _ Hg) as Hev0.
  destruct r0 as [[]|e].
  - pose proof (get_authenticated_driver_sets _ _ Hg) as Hd0.
    unfold_monad.
    destruct (scrape_category_returns UGC_URL "ugc" (max_profiles s0) s0 Hd0)
      as (rows1 & s1 & evs1 & -> & Hev1).
    set (s1' := set_ugc_rows rows1 s1).
    assert (Hd1 : driver s1' = true) by exact (evolves_driver _ _ _ Hev1 Hd0).
    destruct (scrape_category_returns VIDEO_URL "video_editor"
                (max_profiles s1') s1' Hd1)
      as (rows2 & s2 & evs2 & -> & Hev2).
    eexists _, _. split; [reflexivity|].
    destruct Hev0 as (_&_&_&_&Hs0&Hf0&_&_).
    destruct Hev1 as (_&_&_&_&Hs1&Hf1&_&_).
    destruct Hev2 as (_&_&_&_&Hs2&Hf2&_&_).
    cbn in *. split; [congruence|]. split; [congruence|done].
  - exists (Raise e), s0. split; [done|].
    destruct Hev0 as (_&_&_&_&Hs0&Hf0&_&_).
    split; [done|]. split; [done|].
    unfold get_authenticated_driver in Hg.
    intros [Hd|Hl].
    + by rewrite Hd in Hg.
    + destruct (driver s); [done|]. by rewrite Hl in Hg.
Qed.

(** After any run that starts from [init], [ugc_profile_urls] is still
    empty: the filter of [card_data_list] that consults it for
    [video_editor] never drops a card. *)
Lemma run_leaves_seen_urls_empty pages profiles :
  ugc_profile_urls (snd (run lib w (init pages profiles))) = ∅.
Proof.
  destruct (run_outcome (init pages profiles)) as (r & s' & -> & Hs & _).
  exact Hs.
Qed.

(** C8.  A failure while a card is read gives the all-empty record, which
    is no candidate, and the other cards of the page are treated as if the
    failed card were absent; a card that only lacks its name or title
    element gives a partial record.  A profile page or a listing page that
    fails gives [("", False)] and the empty list.  With a driver at hand
    neither [parse_search_page] nor [run] followed by [save_csv] raises. *)
Theorem extraction_failures_stay_local :
  (∀ el e, extract_from_card_body el = Raise e →
     extract_from_card el = empty_row)
  ∧ (∀ role seen before el after e,
       extract_from_card_body el = Raise e →
       card_data_list role seen (before ++ el :: after)
         = card_data_list role seen (before ++ after))
  ∧ (∀ text href,
       let d := extract_from_card
                  (mkElement (Ok text) (Ok href)
                             (Raise NoSuchElementException)
                             (Raise NoSuchElementException)) in
       name d = username d ∧ heading d = "")
  ∧ (∀ url role s, ∃ h b s',
       extract_instagram_from_profile w url role s = (Ok (h, b), s'))
  ∧ (∀ url role s e, driver s = true →
       pp_load (w_profile w (trace s ++ [CallProfile url])%list url)
         = Raise e →
       fst (extract_instagram_from_profile w url role s) = Ok ("", false))
  ∧ (∀ url role s, driver s = true →
       ∃ rows s', parse_search_page w url role s = (Ok rows, s'))
  ∧ (∀ url role s e, driver s = true →
       let page := w_listing w (trace s ++ [CallListing url role])%list url in
       lp_load page = Raise e ∨ lp_cards page = Raise e →
       fst (parse_search_page w url role s) = Ok [])
  ∧ (∀ s, driver s = true ∨ w_login w (trace s) = Ok tt →
       ∃ s1 s2, run lib w s = (Ok tt, s1) ∧ save_csv w s1 = (Ok tt, s2)).
Proof.
  split; [|split; [|split; [|split; [|split; [|split; [|split]]]]]].
  - intros el e H. unfold extract_from_card. by rewrite H.
  - intros role seen before el after e H.
    rewrite !card_data_list_filter, !fmap_app, !filter_app.
    f_equal. cbn [fmap list_fmap]. rewrite filter_cons.
    assert (Hrow : extract_from_card el = empty_row)
      by (unfold extract_from_card; by rewrite H).
    rewrite Hrow.
    destruct (decide _) as [Hp|]; [|done].
    unfold passes_filters in Hp. by cbn in Hp.
  - intros text href.
    unfold extract_from_card, extract_from_card_body.
    cbn [el_text el_link el_name el_heading res_bind or_if_missing].
    by match goal with
       | |- context [let '(_, _) := ?x in _] => destruct x
       end.
  - intros url role s.
    destruct (extract_instagram_from_profile_returns w url role s)
      as (h & b & s' & Heq & _). eauto.
  - intros url role s e Hd Hload.
    rewrite extract_instagram_from_profile_page by done.
    unfold profile_page_result. by rewrite Hload.
  - intros url role s Hd.
    destruct (parse_search_page_returns w url role s Hd)
      as (rows & s' & evs & Heq & _). eauto.
  - intros url role s e Hd page Hfail.
    unfold parse_search_page. unfold_monad.
    set (s0 := log_call (CallListing url role) s) in *.
    assert (Hd0 : driver s0 = true) by apply Hd.
    rewrite (get_authenticated_driver_ready w s0 Hd0).
    change (w_listing w (trace s0) url) with page.
    destruct (lp_load page) as [[]|e'] eqn:Hload; [|done].
    destruct Hfail as [Hfail|Hfail]; [done|].
    unfold find_cards. by rewrite Hfail.
  - intros s Hlogin.
    destruct (run_outcome s) as (r & s1 & Hrun & _ & _ & Hok).
    rewrite (Hok Hlogin) in Hrun.
    destruct (save_csv_returns w s1) as (s2 & Hsave & _).
    eauto.
Qed.

End Run.

(** C1 (the code departs from the claim).  A card whose title names both
    roles is listed under both categories.  The run accepts it under [ugc],
    stores nothing in [ugc_profile_urls], and accepts the same profile URL
    again under [video_editor]. *)
Theorem run_accepts_profile_in_both_categories :
  let w := Scenario.site [Scenario.card_both_roles]
                         Scenario.profile_both_roles "" in
  let s' := snd (run Plain.lib w (init 1 10)) in
  profile_url <$> ugc_rows s' = [Scenario.jane_url]
  ∧ profile_url <$> video_rows s' = [Scenario.jane_url]
  ∧ ugc_profile_urls s' = ∅
  ∧ trace s' = [CallListing UGC_URL "ugc"; CallProfile Scenario.jane_url;
                CallListing VIDEO_URL "video_editor";
                CallProfile Scenario.jane_url].
Proof.
  intros w s'. split; [by vm_compute|]. split; [by vm_compute|].
  split; [apply run_leaves_seen_urls_empty|by vm_compute].
Qed.

(** * Further properties of the code *)

(** ** Characters and strings *)

Lemma char_lower_idem c : Char.lower (Char.lower c) = Char.lower c.
Proof. destruct c as [[] [] [] [] [] [] [] []]; reflexivity. Qed.

Lemma char_is_space_lower c : Char.is_space (Char.lower c) = Char.is_space c.
Proof. destruct c as [[] [] [] [] [] [] [] []]; reflexivity. Qed.

Lemma lower_idem s : Str.lower (Str.lower s) = Str.lower s.
Proof.
  induction s as [|c s IH]; [done|]. cbn. by rewrite char_lower_idem, IH.
Qed.

Lemma truthy_lower s : Str.truthy (Str.lower s) = Str.truthy s.
Proof. by destruct s. Qed.

Lemma lstrip_lower s :
  Str.lstrip_by Char.is_space (Str.lower s)
  = Str.lower (Str.lstrip_by Char.is_space s).
Proof.
  induction s as [|c s IH]; [done|]. cbn. rewrite char_is_space_lower.
  by destruct (Char.is_space c).
Qed.

Lemma rstrip_lower s :
  Str.rstrip_by Char.is_space (Str.lower s)
  = Str.lower (Str.rstrip_by Char.is_space s).
Proof.
  induction s as [|c s IH]; [done|]. cbn. rewrite IH, char_is_space_lower.
  destruct (Str.rstrip_by Char.is_space s); cbn; [|done].
  by destruct (Char.is_space c).
Qed.

Lemma strip_lower s : Str.strip (Str.lower s) = Str.lower (Str.strip s).
Proof. unfold Str.strip. by rewrite lstrip_lower, rstrip_lower. Qed.

Lemma rstrip_cons p c s :
  Str.rstrip_by p (String c s) =
    match Str.rstrip_by p s with
    | "" => if p c then "" else String c ""
    | t => String c t
    end.
Proof. done. Qed.

Lemma rstrip_idem p s :
  Str.rstrip_by p (Str.rstrip_by p s) = Str.rstrip_by p s.
Proof.
  induction s as [|c s IH]; [done|]. rewrite rstrip_cons.
  destruct (Str.rstrip_by p s) as [|c' t] eqn:Ht.
  - destruct (p c) eqn:Hc; [done|]. rewrite rstrip_cons. cbn.
    by rewrite Hc.
  - by rewrite rstrip_cons, IH.
Qed.

(** A text that does not start with a stripped character. *)
Lemma lstrip_fixed p s :
  (∀ c s', s = String c s' → p c = false) → Str.lstrip_by p s = s.
Proof.
  destruct s as [|c s']; [done|]. intros H. cbn. by rewrite (H c s').
Qed.

Lemma lstrip_head p s c s' :
  Str.lstrip_by p s = String c s' → p c = false.
Proof.
  induction s as [|c0 s0 IH]; [done|]. cbn.
  destruct (p c0) eqn:Hc; [done|]. by intros [= <- <-].
Qed.

Lemma rstrip_head p s c s' :
  Str.rstrip_by p s = String c s' → ∃ s0, s = String c s0.
Proof.
  destruct s as [|c0 s0]; [done|]. cbn.
  destruct (Str.rstrip_by p s0); [destruct (p c0)|];
    intros [= <- _]; eauto.
Qed.

Lemma strip_idem s : Str.strip (Str.strip s) = Str.strip s.
Proof.
  unfold Str.strip.
  rewrite (lstrip_fixed _ (Str.rstrip_by _ _)); [apply rstrip_idem|].
  intros c s' Hr. destruct (rstrip_head _ _ _ _ Hr) as [s0 Hl].
  by apply lstrip_head in Hl.
Qed.

Lemma normalized_idem e : normalized (normalized e) = normalized e.
Proof.
  unfold normalized. by rewrite strip_lower, strip_idem, lower_idem.
Qed.

Lemma normalized_lower e : normalized (Str.lower e) = normalized e.
Proof. unfold normalized. by rewrite strip_lower, lower_idem. Qed.

Lemma normalized_strip e : normalized (Str.strip e) = normalized e.
Proof. unfold normalized. by rewrite strip_idem. Qed.

(** ** Literal patterns *)

Lemma prefix_cons a p b s :
  String.prefix (String a p) (String b s)
  = Char.eqb a b && String.prefix p s.
Proof.
  cbn. unfold Char.eqb. destruct (ascii_dec a b) as [->|Hne].
  - by rewrite Ascii.eqb_refl.
  - by destruct (Ascii.eqb_spec a b).
Qed.

(** A literal pattern matches at a position exactly when the text there
    starts with it. *)
Lemma match_at_lits p : ∀ pv i s,
  is_Some (Re.match_at (Re.lits p) pv i s) ↔ String.prefix p s = true.
Proof.
  unfold Re.match_at, Re.lits.
  assert (H : ∀ (k : Re.pos → option Re.found) q pv i s cp,
             (∀ m, is_Some (k m)) →
             is_Some (Re.rmatch (Re.seq (Re.Lit <$> list_ascii_of_string q))
                                k (Re.Pos pv i s cp))
             ↔ String.prefix q s = true).
  { intros k q. induction q as [|a q IH]; intros pv i s cp Hk.
    - cbn. split; [by destruct s|]. intros _. apply Hk.
    - destruct s as [|b s].
      + cbn. split; [by intros [? ?]|done].
      + rewrite prefix_cons.
        change (list_ascii_of_string (String a q))
          with (a :: list_ascii_of_string q).
        cbn [fmap list_fmap Re.seq foldr Re.rmatch Re.rest Re.idx Re.cap].
        destruct (Char.eqb a b); cbn [andb].
        * apply IH, Hk.
        * split; [by intros [? ?]|done]. }
  intros pv i s. apply H. by eauto.
Qed.

Lemma search_lits p s :
  is_Some (Re.search (Re.lits p) s) ↔ Str.contains p s = true.
Proof.
  unfold Re.search. generalize (@None ascii) as pv, 0%nat as i.
  induction s as [|c s IH]; intros pv i.
  - cbn [Re.search_from Str.contains].
    pose proof (match_at_lits p pv i "") as Hm.
    destruct (Re.match_at (Re.lits p) pv i ""); rewrite orb_false_r.
    + split; [intros _; by apply Hm|by eauto].
    + split; [by intros [? ?]|]. intros Hp. by apply Hm in Hp as [? ?].
  - cbn [Re.search_from Str.contains].
    pose proof (match_at_lits p pv i (String c s)) as Hm.
    destruct (Re.match_at (Re.lits p) pv i (String c s)).
    + split; [intros _|by eauto].
      apply orb_true_iff. left. by apply Hm.
    + rewrite IH. rewrite orb_true_iff. split; [by right|].
      intros [Hp|Hc]; [|done]. by apply Hm in Hp as [? ?].
Qed.

(** ** EmailValidator, continued *)

Lemma validate_email_bounds_witness :
  validate_email "  Jane@Studio.IO " = true
  ∧ (6 <= Str.len (normalized "  Jane@Studio.IO ") <= 254)%Z.
Proof.
  split; [reflexivity|].
  destruct (validate_email_bounds "  Jane@Studio.IO ") as (_ & Hlen & _);
    [reflexivity|exact Hlen].
Defined.

(** An address whose trimmed, lowercased text contains one of the six
    denied texts is rejected, wherever the text stands. *)
Theorem validate_email_rejects_denied e pat :
  pat ∈ deny_list → Str.contains pat (normalized e) = true →
  validate_email e = false.
Proof.
  intros Hpat Hc. unfold validate_email. cbv zeta. fold (normalized e).
  destruct (Str.truthy e); [|done]. cbn [negb].
  case_bool_decide; [|done]. cbn [negb].
  assert (Hex : existsb (fun pattern =>
                  bool_decide (is_Some (Re.search pattern (normalized e))))
                invalid_patterns = true); [|by rewrite Hex].
  apply existsb_exists. exists (Re.lits pat). split.
  - apply list_elem_of_In. unfold invalid_patterns. fold deny_list.
    apply list_elem_of_fmap. by exists pat.
  - apply bool_decide_eq_true. by apply search_lits.
Qed.

Lemma validate_email_rejects_denied_witness :
  "no-reply" ∈ deny_list
  ∧ Str.contains "no-reply" (normalized " Shop.No-Reply@brand.co") = true
  ∧ validate_email " Shop.No-Reply@brand.co" = false.
Proof.
  assert (Hin : "no-reply" ∈ deny_list) by (right; left).
  split; [exact Hin|]. split; [reflexivity|].
  apply (validate_email_rejects_denied _ "no-reply"); [exact Hin|reflexivity].
Defined.

(** The verdict depends on the trimmed, lowercased text only: letter case
    and surrounding whitespace do not change it. *)
Theorem validate_email_normalized e :
  validate_email (normalized e) = validate_email e
  ∧ validate_email (Str.lower e) = validate_email e
  ∧ validate_email (Str.strip e) = validate_email e.
Proof.
  assert (Hn : ∀ e, validate_email e = validate_email (normalized e)).
  { intros e0. unfold validate_email at 2. cbv zeta.
    fold (normalized (normalized e0)). rewrite normalized_idem.
    unfold validate_email. cbv zeta. fold (normalized e0).
    destruct (Str.truthy e0) eqn:He.
    - destruct (normalized e0) eqn:Hne; [by vm_compute|done].
    - destruct e0; [|done]. by vm_compute. }
  split; [by rewrite <- Hn|]. split.
  - by rewrite (Hn (Str.lower e)), normalized_lower, <- Hn.
  - by rewrite (Hn (Str.strip e)), normalized_strip, <- Hn.
Qed.

(** ** RoleValidator, continued *)

Lemma prefix_app_l a b s :
  String.prefix (a +:+ b) s = true → String.prefix a s = true.
Proof.
  revert s. induction a as [|c a IH]; intros s; [by destruct s|].
  destruct s as [|d s]; [done|].
  change (String c a +:+ b) with (String c (a +:+ b)).
  rewrite !prefix_cons. intros [Hc Hp]%andb_true_iff.
  by rewrite Hc, (IH s Hp).
Qed.

Lemma contains_app_l a b s :
  Str.contains (a +:+ b) s = true → Str.contains a s = true.
Proof.
  induction s as [|c s IH]; cbn [Str.contains];
    rewrite !orb_true_iff; intros [Hp|Hc]; try done.
  - left. by eapply prefix_app_l.
  - left. by eapply prefix_app_l.
  - right. by apply IH.
Qed.

(** The role check ignores letter case: two headings with the same
    lowercase form get the same verdict, and so do a heading and its
    lowercase form. *)
Theorem validate_heading_for_role_ignores_case h1 h2 role :
  Str.lower h1 = Str.lower h2 →
  validate_heading_for_role h1 role = validate_heading_for_role h2 role
  ∧ validate_heading_for_role (Str.lower h1) role
    = validate_heading_for_role h1 role.
Proof.
  intros Heq. unfold validate_heading_for_role.
  rewrite truthy_lower, lower_idem, <- Heq.
  rewrite <- (truthy_lower h1), <- (truthy_lower h2), Heq. done.
Qed.

Lemma validate_heading_for_role_ignores_case_witness :
  Str.lower "VIDEO Editor" = Str.lower "video editor"
  ∧ validate_heading_for_role "VIDEO Editor" "video_editor"
    = validate_heading_for_role "video editor" "video_editor".
Proof.
  split; [reflexivity|].
  apply (validate_heading_for_role_ignores_case "VIDEO Editor" "video editor").
  reflexivity.
Defined.

(** For [video_editor] the words [video] and [editor] decide alone: a
    heading passes exactly when its lowercase form contains one of them,
    and the terms [video editor] and [video editing] never change the
    verdict. *)
Theorem validate_heading_for_video_editor h :
  validate_heading_for_role h "video_editor"
  = Str.contains "video" (Str.lower h) || Str.contains "editor" (Str.lower h).
Proof.
  unfold validate_heading_for_role.
  destruct (Str.truthy h) eqn:Ht; cbn [negb].
  - cbn [String.eqb Ascii.eqb Bool.eqb video_terms existsb].
    cbn -[Str.contains].
    pose proof (contains_app_l "video" " editor" (Str.lower h)) as H1.
    pose proof (contains_app_l "video" " editing" (Str.lower h)) as H2.
    change ("video" +:+ " editor") with "video editor" in H1.
    change ("video" +:+ " editing") with "video editing" in H2.
    destruct (Str.contains "video" (Str.lower h)); [done|].
    destruct (Str.contains "editor" (Str.lower h)); [done|].
    destruct (Str.contains "video editor" (Str.lower h));
      [by specialize (H1 eq_refl)|].
    destruct (Str.contains "video editing" (Str.lower h));
      [by specialize (H2 eq_refl)|]. done.
  - destruct h; [|done]. done.
Qed.

(** ** CardExtractor *)

Lemma split_nonempty sep s : Str.split sep s ≠ [].
Proof.
  destruct s as [|c s]; [done|]. cbn.
  destruct (Char.eqb c sep); [done|]. by destruct (Str.split sep s).
Qed.

Lemma split_no_separator sep s :
  Forall (fun t => Str.contains (String sep "") t = false) (Str.split sep s).
Proof.
  induction s as [|c s IH]; [by repeat constructor|]. cbn [Str.split].
  destruct (Char.eqb c sep) eqn:Hc.
  - constructor; [done|exact IH].
  - assert (Hsc : Char.eqb sep c = false)
      by (unfold Char.eqb in *; by rewrite Ascii.eqb_sym).
    destruct (Str.split sep s) as [|h t].
    + constructor; [|constructor].
      cbn [Str.contains]. by rewrite prefix_cons, Hsc.
    + apply Forall_cons in IH as [Hh Ht]. constructor; [|done].
      cbn [Str.contains]. by rewrite prefix_cons, Hh, Hsc.
Qed.

Lemma last_elem_of (l : list string) : l ≠ [] → Str.last l ∈ l.
Proof.
  unfold Str.last. induction l as [|a l IH]; [done|]. intros _.
  destruct l as [|b l]; [by left|]. right. by apply IH.
Qed.

(** What the [try] block of [extract_from_card] returns, field by field. *)
Lemma extract_from_card_body_fields el d :
  extract_from_card_body el = Ok d →
  ∃ text href,
    el_text el = Ok text ∧ el_link el = Ok href
    ∧ profile_url d =
        match href with
        | Some h =>
            if Str.truthy h
               && negb (existsb (fun x => Str.contains x h) excluded_paths)
            then h else ""
        | None => ""
        end
    ∧ username d = username_of (profile_url d)
    ∧ (name d = username d ∧ el_name el = Raise NoSuchElementException
       ∨ ∃ t, el_name el = Ok t
              ∧ name d = Str.strip (Re.sub_empty RATING_SUFFIX (Str.strip t)))
    ∧ (heading d = "" ∧ el_heading el = Raise NoSuchElementException
       ∨ ∃ t, el_heading el = Ok t ∧ heading d = Str.strip t)
    ∧ email d =
        (let e := default "" (Re.search_group0 EMAIL_REGEX text) in
         if validate_email e then e else "")
    ∧ role_type d = "" ∧ instagram_handle d = "".
Proof.
  unfold extract_from_card_body.
  destruct (el_text el) as [text|]; [|done].
  destruct (el_link el) as [href|]; [|done].
  cbn [res_bind].
  set (pair := match href with Some h => _ | None => _ end).
  assert (Hpair : pair =
            (match href with
             | Some h =>
                 if Str.truthy h
                    && negb (existsb (fun x => Str.contains x h)
                                     excluded_paths)
                 then h else ""
             | None => ""
             end,
             username_of
               match href with
               | Some h =>
                   if Str.truthy h
                      && negb (existsb (fun x => Str.contains x h)
                                       excluded_paths)
                   then h else ""
               | None => ""
               end)).
  { unfold pair. destruct href as [h|]; [|done].
    by destruct (Str.truthy h &&
                 negb (existsb (fun x => Str.contains x h) excluded_paths)). }
  rewrite Hpair. clear Hpair pair.
  destruct (el_name el) as [tn|[]] eqn:Hn; cbn [res_bind or_if_missing];
    try done;
    destruct (el_heading el) as [th|[]] eqn:Hh;
    cbn [res_bind or_if_missing]; try done;
    intros [= <-]; exists text, href; cbn;
    repeat (split; [done|]); eauto 10.
  all: split; [eauto|]. all: split; [eauto|]. all: split; [|done].
  all: by destruct (Re.search_group0 EMAIL_REGEX text).
Qed.

Lemma extract_from_card_email el :
  email (extract_from_card el) = ""
  ∨ validate_email (email (extract_from_card el)) = true.
Proof.
  unfold extract_from_card.
  destruct (extract_from_card_body el) as [d|] eqn:Hbody; [|by left].
  destruct (extract_from_card_body_fields el d Hbody)
    as (text & href & _ & _ & _ & _ & _ & _ & Hemail & _).
  rewrite Hemail. cbv zeta.
  destruct (validate_email _) eqn:Hv; [by right|by left].
Qed.

(** Whatever the card shows, the record of [extract_from_card] has an
    email that is empty or accepted by [validate_email], a profile URL
    that contains none of [login], [signup], [about], [contact], a heading
    without surrounding whitespace, and no role or handle yet. *)
Theorem extract_from_card_fields el :
  let d := extract_from_card el in
  (email d = "" ∨ validate_email (email d) = true)
  ∧ (∀ x, x ∈ excluded_paths → Str.contains x (profile_url d) = false)
  ∧ Str.strip (heading d) = heading d
  ∧ role_type d = "" ∧ instagram_handle d = "".
Proof.
  intros d. subst d. unfold extract_from_card.
  destruct (extract_from_card_body el) as [d|] eqn:Hbody.
  - destruct (extract_from_card_body_fields el d Hbody)
      as (text & href & _ & _ & Hurl & _ & _ & Hhead & Hemail & Hr & Hh).
    split; [|split; [|split; [|done]]].
    + rewrite Hemail. cbv zeta.
      destruct (validate_email _) eqn:Hv; [by right|by left].
    + intros x Hx. rewrite Hurl. destruct href as [h|];
        [|by repeat (apply elem_of_cons in Hx as [->|Hx]; [done|]);
             apply elem_of_nil in Hx].
      destruct (Str.truthy h) eqn:Ht; cbn [andb];
        [|by repeat (apply elem_of_cons in Hx as [->|Hx]; [done|]);
             apply elem_of_nil in Hx].
      destruct (existsb _ excluded_paths) eqn:Hex; cbn [negb];
        [by repeat (apply elem_of_cons in Hx as [->|Hx]; [done|]);
            apply elem_of_nil in Hx|].
      destruct (Str.contains x h) eqn:Hc; [|done].
      assert (existsb (fun x => Str.contains x h) excluded_paths = true);
        [|congruence].
      apply existsb_exists. exists x. split; [|done].
      by apply list_elem_of_In.
    + destruct Hhead as [[-> _]|(t & _ & ->)]; [done|apply strip_idem].
  - split; [by left|]. split; [|done].
    intros x Hx.
    by repeat (apply elem_of_cons in Hx as [->|Hx]; [done|]);
       apply elem_of_nil in Hx.
Qed.

(** The username of a record is a function of the record's own profile
    URL: [@] and the last segment of the URL once trailing slashes are
    removed, or empty when that segment is empty (in particular when the
    URL is empty).  A non-empty username never contains a slash after its
    [@]. *)
Theorem extract_from_card_username el :
  let d := extract_from_card el in
  username d = username_of (profile_url d)
  ∧ (profile_url d = "" → username d = "")
  ∧ (username d = ""
     ∨ ∃ u, username d = "@" +:+ u ∧ u ≠ ""
            ∧ Str.contains "/" u = false).
Proof.
  intros d.
  assert (Hu : username d = username_of (profile_url d)).
  { subst d. unfold extract_from_card.
    destruct (extract_from_card_body el) as [d|] eqn:Hbody; [|done].
    by destruct (extract_from_card_body_fields el d Hbody)
      as (_ & _ & _ & _ & _ & ? & _). }
  split; [done|]. split; [by intros Hempty; rewrite Hu, Hempty|].
  rewrite Hu. unfold username_of. cbv zeta.
  set (l := Str.split "/" _).
  destruct (Str.truthy (Str.last l)) eqn:Ht; [right|by left].
  exists (Str.last l). split; [done|]. split; [by destruct (Str.last l)|].
  pose proof (split_no_separator "/"
                (Str.rstrip_by (Char.eqb "/") (profile_url d))) as Hall.
  rewrite Forall_forall in Hall. apply Hall.
  apply last_elem_of, split_nonempty.
Qed.

(** ** ProfileResolver: the handle *)

Lemma skip_skip a b s : skip a (skip b s) = skip (b + a) s.
Proof.
  revert s. induction b as [|b IH]; intros s; [done|].
  destruct s as [|c s]; [by destruct a|]. cbn. apply IH.
Qed.

Lemma substring_skip b n s :
  String.substring b n s = String.substring 0 n (skip b s).
Proof.
  revert s. induction b as [|b IH]; intros s; [by destruct s|].
  destruct s as [|c s]; [by destruct n|]. cbn. apply IH.
Qed.

(** A lazy run consumes characters of its class only, at least [lo]. *)
Lemma lazy_run {A} p (k : Re.pos → option A) cp s : ∀ lo pv i a,
  Re.lazy p k lo pv i cp s = Some a →
  ∃ n pv',
    (lo ≤ n)%nat
    ∧ every p (String.substring 0 n s) = true
    ∧ String.length (String.substring 0 n s) = n
    ∧ k (Re.Pos pv' (i + n) (skip n s) cp) = Some a.
Proof.
  induction s as [|c s IH]; intros lo pv i a.
  - cbn. destruct lo; [|done].
    destruct (k _) eqn:Hk; [|done]. intros [= <-].
    exists 0%nat, pv. rewrite Nat.add_0_r. by repeat split.
  - cbn [Re.lazy].
    destruct (match lo with O => _ | S _ => None end) as [a0|] eqn:Hhere.
    + intros [= <-]. destruct lo; [|done].
      exists 0%nat, pv. rewrite Nat.add_0_r. by repeat split.
    + destruct (p c) eqn:Hc; [|done]. intros Hrec.
      destruct (IH _ _ _ _ Hrec) as (n & pv' & Hlo & Hev & Hlen & Hk).
      exists (S n), pv'. split; [lia|]. cbn. rewrite Hc, Hev, Hlen.
      repeat split. by rewrite <- Nat.add_succ_comm.
Qed.

(** A literal prefix moves the position by its length. *)
Lemma lits_step {A} (k : Re.pos → option A) q : ∀ pv i s cp a,
  Re.rmatch (Re.lits q) k (Re.Pos pv i s cp) = Some a →
  ∃ pv', k (Re.Pos pv' (i + String.length q) (skip (String.length q) s) cp)
         = Some a.
Proof.
  unfold Re.lits. induction q as [|c q IH]; intros pv i s cp a.
  - cbn. rewrite Nat.add_0_r. destruct s; eauto.
  - change (list_ascii_of_string (String c q))
      with (c :: list_ascii_of_string q).
    cbn [fmap list_fmap Re.seq foldr Re.rmatch Re.rest Re.idx Re.cap].
    destruct s as [|d s]; [done|]. destruct (Char.eqb c d); [|done].
    intros H. destruct (IH _ _ _ _ _ H) as [pv' Hk]. exists pv'.
    cbn. by rewrite <- Nat.add_succ_comm.
Qed.

Lemma search_from_start r s : ∀ pv i b f,
  Re.search_from r pv i s = Some (b, f) →
  ∃ pv', (i ≤ b)%nat ∧ Re.match_at r pv' b (skip (b - i) s) = Some f.
Proof.
  induction s as [|c s IH]; intros pv i b f; cbn [Re.search_from].
  - destruct (Re.match_at r pv i "") eqn:Hm; [|done]. intros [= <- <-].
    exists pv. rewrite Nat.sub_diag. by split.
  - destruct (Re.match_at r pv i (String c s)) eqn:Hm.
    + intros [= <- <-]. exists pv. rewrite Nat.sub_diag. by split.
    + intros H. destruct (IH _ _ _ _ H) as (pv' & Hle & Hm').
      exists pv'. split; [lia|].
      replace (b - i)%nat with (S (b - S i)) by lia. exact Hm'.
Qed.

Lemma INSTAGRAM_HANDLE_shape :
  INSTAGRAM_HANDLE =
    Re.Seq (Re.lits "instagram.com/")
      (Re.Seq (Re.Group (Re.Lazy handle_char 1))
         (Re.Seq (Re.Alt (Re.Lit "/") (Re.Alt (Re.Lit "?") Re.End)) Re.Eps)).
Proof. reflexivity. Qed.

(** Group 1 of the handle pattern is a non-empty run of handle
    characters. *)
Lemma instagram_handle_group href h :
  Re.search_group1 INSTAGRAM_HANDLE href = Some h →
  h ≠ "" ∧ every handle_char h = true.
Proof.
  unfold Re.search_group1, Re.search.
  destruct (Re.search_from INSTAGRAM_HANDLE None 0 href)
    as [[b [e [[b1 e1]|]]]|] eqn:Hs; [|done|done].
  intros [= <-].
  destruct (search_from_start _ _ _ _ _ _ Hs) as (pv & _ & Hm).
  rewrite Nat.sub_0_r in Hm. unfold Re.match_at in Hm.
  rewrite INSTAGRAM_HANDLE_shape in Hm. cbn [Re.rmatch] in Hm.
  apply lits_step in Hm as [pv1 Hm].
  cbn [Re.rmatch Re.prev Re.idx Re.rest Re.cap] in Hm.
  apply lazy_run in Hm as (n & pv2 & Hn & Hev & Hlen & Hm).
  assert (Hcap : b1 = (b + String.length "instagram.com/")%nat
                 ∧ e1 = (b + String.length "instagram.com/" + n)%nat).
  { cbn [Re.rmatch Re.prev Re.idx Re.rest Re.cap] in Hm.
    set (L := String.length "instagram.com/") in *.
    destruct (skip n _) as [|c [|c' t]]; cbn beta iota in Hm;
      repeat match type of Hm with
             | context [Char.eqb ?x ?y] => destruct (Char.eqb x y)
             end;
      try discriminate Hm; by injection Hm as _ <- <-. }
  destruct Hcap as [-> ->]. unfold Str.slice.
  replace (b + String.length "instagram.com/" + n
           - (b + String.length "instagram.com/"))%nat with n by lia.
  rewrite substring_skip, <- skip_skip. split; [|done].
  intros Hempty. rewrite Hempty in Hlen. cbn in Hlen. lia.
Qed.

Lemma first_handle_origin elems h :
  first_handle elems = Some h →
  accepted_handle h
  ∧ ∃ before href after,
      elems = (before ++ Ok (Some href) :: after)%list
      ∧ Re.search_group1 INSTAGRAM_HANDLE href = Some h
      ∧ first_handle before = None.
Proof.
  induction elems as [|el rest IH]; [done|]. cbn [first_handle].
  destruct el as [[href|]|].
  - destruct (Re.search_group1 INSTAGRAM_HANDLE href) as [h0|] eqn:Hg.
    + destruct (String.eqb_spec (Str.lower h0) "collabstr") as [Hb|Hb].
      * intros H. destruct (IH H)
          as (Hacc & before & href' & after & -> & Hg' & Hbefore).
        split; [done|]. exists (Ok (Some href) :: before), href', after.
        split; [done|]. split; [done|]. cbn [first_handle].
        rewrite Hg. by rewrite Hb.
      * destruct (in_list (Str.lower h0) invalid_handles) eqn:Hin;
          cbn [negb].
        -- intros H. destruct (IH H)
             as (Hacc & before & href' & after & -> & Hg' & Hbefore).
           split; [done|]. exists (Ok (Some href) :: before), href', after.
           split; [done|]. split; [done|]. cbn [first_handle].
           rewrite Hg, Hin.
           by destruct (String.eqb_spec (Str.lower h0) "collabstr").
        -- intros [= <-]. destruct (instagram_handle_group _ _ Hg).
           split; [by repeat split|]. by exists [], href, rest.
    + intros H. destruct (IH H)
        as (Hacc & before & href' & after & -> & Hg' & Hbefore).
      split; [done|]. exists (Ok (Some href) :: before), href', after.
      split; [done|]. split; [done|]. cbn [first_handle]. by rewrite Hg.
  - intros H. destruct (IH H)
      as (Hacc & before & href' & after & -> & Hg' & Hbefore).
    split; [done|]. by exists (Ok None :: before), href', after.
  - intros H. destruct (IH H)
      as (Hacc & before & href' & after & -> & Hg' & Hbefore).
    split; [done|]. by exists (Raise e :: before), href', after.
Qed.

(** The handle that the loop over the anchors returns comes from the
    first anchor whose [href] yields a handle that is not the brand account
    and not a reserved path word; it is a non-empty text of letters,
    digits, dots and underscores. *)
Theorem first_handle_accepted elems h :
  first_handle elems = Some h →
  accepted_handle h
  ∧ ∃ before href after,
      elems = (before ++ Ok (Some href) :: after)%list
      ∧ Re.search_group1 INSTAGRAM_HANDLE href = Some h
      ∧ first_handle before = None.
Proof. apply first_handle_origin. Qed.

Lemma first_handle_accepted_witness :
  first_handle [Ok (Some "https://instagram.com/reels/");
                Ok (Some "https://www.instagram.com/jane.doe/")]
    = Some "jane.doe"
  ∧ accepted_handle "jane.doe".
Proof.
  split; [reflexivity|].
  apply (first_handle_accepted
           [Ok (Some "https://instagram.com/reels/");
            Ok (Some "https://www.instagram.com/jane.doe/")] "jane.doe").
  reflexivity.
Defined.

(** ** Candidates and rows of a listing page *)

Lemma passes_filters_candidate role seen el :
  let d := set_role_type (extract_from_card el) role in
  passes_filters role seen d = true → candidate_row role seen d.
Proof.
  intros d. unfold passes_filters.
  rewrite !andb_true_iff, !negb_true_iff, !andb_false_iff, negb_false_iff.
  intros [[Hhead [Hurl Hname]] Hseen].
  split; [done|]. split; [by destruct (profile_url d)|].
  split; [by destruct (name d)|]. split.
  { destruct Hhead as [Hh|Hh]; [left; by destruct (heading d)|by right]. }
  split; [apply extract_from_card_email|].
  intros ->. destruct Hseen as [Hs|Hs]; [done|].
  by apply bool_decide_eq_false in Hs.
Qed.

Lemma card_data_list_sound role seen cards :
  Forall (candidate_row role seen) (card_data_list role seen cards)
  ∧ card_data_list role seen cards
      `sublist_of`
      ((fun el => set_role_type (extract_from_card el) role) <$> cards).
Proof.
  rewrite card_data_list_filter. split; [|apply sublist_filter].
  apply Forall_forall. intros d [Hp Hin]%list_elem_of_filter.
  apply list_elem_of_fmap in Hin as (el & -> & _).
  by apply passes_filters_candidate.
Qed.

(** The candidates of a page keep the order of its cards; each has the
    category as its role, a non-empty profile URL and name, a card heading
    that is empty or passes the role check, an email that is empty or
    valid, and, for [video_editor], a profile URL outside the set of seen
    URLs. *)
Theorem card_data_list_candidates role seen cards :
  Forall (candidate_row role seen) (card_data_list role seen cards)
  ∧ card_data_list role seen cards
      `sublist_of`
      ((fun el => set_role_type (extract_from_card el) role) <$> cards).
Proof. apply card_data_list_sound. Qed.

Section PageRows.

Context (w : World).

Lemma profile_page_result_handle page role h b :
  profile_page_result page role = Ok (h, b) →
  h = "" ∨ accepted_handle h.
Proof.
  unfold profile_page_result.
  destruct (pp_load page); [|done]. cbn [res_bind].
  destruct (heading_check page role) as [[hv|]|]; cbn [res_bind];
    [|by intros [= <- _]; left|done].
  destruct (pp_scroll page); [|done]. cbn [res_bind].
  destruct (pp_anchors page) as [elems|]; [|by intros [= <- _]; left].
  destruct (first_handle elems) as [h0|] eqn:Hf;
    [|by intros [= <- _]; left].
  intros [= <- _]. right. by apply (first_handle_origin elems).
Qed.

(** The handle that [extract_instagram_from_profile] returns is empty or
    accepted, whatever the page shows and however the call ends. *)
Lemma extract_instagram_from_profile_handle url role s h b s' :
  extract_instagram_from_profile w url role s = (Ok (h, b), s') →
  h = "" ∨ accepted_handle h.
Proof.
  unfold extract_instagram_from_profile. unfold_monad. cbn.
  destruct (get_authenticated_driver w _) as [[[]|] s1];
    [|by intros [= <- _ _]; left].
  destruct (profile_page_result _ _) as [[h0 b0]|] eqn:Hp;
    [|by intros [= <- _ _]; left].
  intros [= <- _ _]. by eapply profile_page_result_handle.
Qed.

(** The rows that the second loop keeps are candidates, in their order,
    with a handle set. *)
Lemma resolve_cards_rows role ds : ∀ s out s',
  resolve_cards w role ds s = (Ok out, s') →
  ∃ kept,
    kept `sublist_of` ds
    ∧ Forall2 (fun d r =>
                 ∃ h, r = set_instagram_handle d h
                      ∧ (h = "" ∨ accepted_handle h))
              kept out.
Proof.
  induction ds as [|d rest IH]; intros s out s'.
  - intros [= <- _]. exists []. split; [done|constructor].
  - cbn [resolve_cards]. unfold bind at 1.
    destruct (extract_instagram_from_profile_returns w (profile_url d)
                (Some role) s) as (h & b & s1 & Hcall & _).
    rewrite Hcall.
    pose proof (extract_instagram_from_profile_handle _ _ _ _ _ _ Hcall)
      as Hh.
    destruct (resolve_cards_returns w role rest s1)
      as (out1 & s2 & Hrest & _).
    destruct (IH _ _ _ Hrest) as (kept & Hsub & Hrel).
    destruct b; cbn [negb].
    + unfold bind, ret. rewrite Hrest. intros [= <- _].
      exists (d :: kept). split; [by apply sublist_skip|].
      constructor; [by exists h|done].
    + rewrite Hrest. intros [= <- _].
      exists kept. split; [by apply sublist_cons|done].
Qed.

Lemma parse_search_page_accepted url role s :
  driver s = true →
  let page := w_listing w (trace s ++ [CallListing url role])%list url in
  ∃ rows s',
    parse_search_page w url role s = (Ok rows, s')
    ∧ Forall (accepted_row role (ugc_profile_urls s)) rows
    ∧ (length rows ≤ length (find_cards page))%nat.
Proof.
  intros Hd page.
  destruct (parse_search_page_returns w url role s Hd)
    as (rows & s' & evs & Heq & _).
  exists rows, s'. split; [done|].
  revert Heq. unfold parse_search_page. unfold_monad.
  set (s0 := log_call (CallListing url role) s) in *.
  assert (Hd0 : driver s0 = true) by apply Hd.
  rewrite (get_authenticated_driver_ready w s0 Hd0).
  change (w_listing w (trace s0) url) with page.
  destruct (lp_load page) as [[]|];
    [|by intros [= <- _]; split; [constructor|cbn; lia]].
  change (ugc_profile_urls s0) with (ugc_profile_urls s).
  set (ds := card_data_list role (ugc_profile_urls s) (find_cards page)).
  destruct (resolve_cards w role ds s0) as [[out|] s1] eqn:Hres;
    [|by intros [= <- _]; split; [constructor|cbn; lia]].
  intros [= <- _].
  destruct (resolve_cards_rows _ _ _ _ _ Hres) as (kept & Hsub & Hrel).
  destruct (card_data_list_sound role (ugc_profile_urls s)
              (find_cards page)) as [Hcand Hsubc]. fold ds in Hcand, Hsubc.
  split.
  - apply Forall_forall. intros r Hr.
    apply list_elem_of_lookup in Hr as [i Hi].
    destruct (Forall2_lookup_r _ _ _ _ _ Hrel Hi) as (d & Hd' & h & -> & Hh).
    assert (Hin : d ∈ ds).
    { eapply elem_of_sublist; [|exact Hsub].
      apply list_elem_of_lookup. eauto. }
    rewrite Forall_forall in Hcand. specialize (Hcand d Hin).
    split; [exact Hcand|exact Hh].
  - rewrite <- (Forall2_length _ _ _ Hrel).
    etrans; [by apply sublist_length|].
    etrans; [by apply sublist_length|]. by rewrite length_fmap.
Qed.

(** With the driver at hand, [parse_search_page] returns at most one row
    per card of the page.  Every row has the category as its role, a
    non-empty profile URL and name, a card heading that is empty or passes
    the role check, an email that is empty or valid, and a handle that is
    empty or accepted. *)
Theorem parse_search_page_rows url role s :
  driver s = true →
  let page := w_listing w (trace s ++ [CallListing url role])%list url in
  ∃ rows s',
    parse_search_page w url role s = (Ok rows, s')
    ∧ Forall (accepted_row role (ugc_profile_urls s)) rows
    ∧ (length rows ≤ length (find_cards page))%nat.
Proof. apply parse_search_page_accepted. Qed.

End PageRows.

Lemma parse_search_page_rows_witness :
  let w := Scenario.site [Scenario.card_both_roles; Scenario.card_without_link]
                         Scenario.profile_both_roles "" in
  driver (Scenario.ready 1 10) = true
  ∧ ∃ rows s',
      parse_search_page w UGC_URL "ugc" (Scenario.ready 1 10) = (Ok rows, s')
      ∧ Forall (accepted_row "ugc" ∅) rows.
Proof.
  intros w. split; [reflexivity|].
  destruct (parse_search_page_rows w UGC_URL "ugc" (Scenario.ready 1 10))
    as (rows & s' & Heq & Hrows & _); [reflexivity|].
  exists rows, s'. split; [exact Heq|exact Hrows].
Defined.

(** ** PaginationPlanner, continued *)

(** With a page count of one or less, also zero or negative, the plan is
    the seed alone, whatever its query. *)
Theorem paginate_urls_single lib (n : Z) (seed : string) :
  (n <= 1)%Z → paginate_urls lib n seed = [seed].
Proof.
  intros Hn. unfold paginate_urls, py_range.
  destruct (dict_get "page" _); rewrite seqZ_nil by lia; done.
Qed.

Lemma paginate_urls_single_witness :
  (-2 <= 1)%Z
  ∧ paginate_urls Plain.lib (-2) "https://x/y?page=5" = ["https://x/y?page=5"].
Proof.
  split; [lia|]. apply (paginate_urls_single Plain.lib (-2)). lia.
Defined.

Lemma paginate_urls_length lib (n : Z) (seed : string) :
  length (paginate_urls lib n seed) = Z.to_nat (Z.max n 1).
Proof.
  unfold paginate_urls.
  destruct (dict_get "page" _); cbn [length];
    rewrite length_fmap, py_range_length; lia.
Qed.

(** ** ScrapeOrchestrator, continued *)

Lemma py_take_Forall {A} (P : A → Prop) n l :
  Forall P l → Forall P (py_take n l).
Proof. intros H. unfold py_take. destruct (0 <=? n)%Z; by apply Forall_take. Qed.

Lemma Forall_event_of_profile_calls role evs :
  Forall is_profile_call evs → Forall (event_of role) evs.
Proof. intros H. eapply Forall_impl; [exact H|]. by intros []. Qed.

Section Orchestration.

Context (lib : UrlLib) (w : World).

(** The loop over the planned URLs, for any budget: it returns accepted
    rows, makes only calls of its own category, and requests a prefix of
    the planned URLs in order. *)
Lemma scrape_pages_rows role maxp seen urls : ∀ rows s,
  driver s = true → ugc_profile_urls s = seen →
  Forall (accepted_row role seen) rows →
  ∃ rows' s' evs k,
    scrape_pages w role maxp urls rows s = (Ok rows', s')
    ∧ evolves s evs s'
    ∧ Forall (accepted_row role seen) rows'
    ∧ Forall (event_of role) evs
    ∧ filter is_listing_call evs
        = (fun u => CallListing u role) <$> take k urls.
Proof.
  induction urls as [|url rest IH]; intros rows s Hd Hseen Hrows.
  - exists rows, s, [], 0%nat. split; [done|].
    split; [apply evolves_refl|]. by repeat split.
  - cbn [scrape_pages].
    destruct (maxp <=? Z.of_nat (length rows))%Z.
    { exists rows, s, [], 0%nat. split; [done|].
      split; [apply evolves_refl|]. by repeat split. }
    unfold bind at 1.
    destruct (parse_search_page_returns w url role s Hd)
      as (page_rows & s1 & evs1 & Hpage & Hev1 & Hprof).
    destruct (parse_search_page_accepted w url role s Hd)
      as (page_rows' & s1' & Hpage' & Hacc & _).
    rewrite Hpage in Hpage'. injection Hpage' as <- <-.
    rewrite Hseen in Hacc. rewrite Hpage.
    assert (Hall : Forall (accepted_row role seen) (rows ++ page_rows))
      by (by apply Forall_app).
    assert (Hl1 : filter is_listing_call (CallListing url role :: evs1)
                  = [CallListing url role]).
    { rewrite filter_cons. cbn.
      by rewrite filter_listing_of_profile_calls. }
    assert (He1 : Forall (event_of role) (CallListing url role :: evs1)).
    { constructor; [done|]. by apply Forall_event_of_profile_calls. }
    destruct (maxp <=? Z.of_nat (length (rows ++ page_rows)))%Z.
    { eexists _, s1, _, 1%nat. split; [reflexivity|].
      split; [exact Hev1|]. split; [by apply py_take_Forall|].
      split; [done|by rewrite Hl1]. }
    assert (Hseen1 : ugc_profile_urls s1 = seen).
    { destruct Hev1 as (_&_&_&_&Hs&_). by rewrite Hs. }
    destruct (IH (rows ++ page_rows)%list s1
                 (evolves_driver _ _ _ Hev1 Hd) Hseen1 Hall)
      as (rows' & s' & evs2 & k & -> & Hev2 & Hacc' & Hevs & Hcalls).
    exists rows', s', ((CallListing url role :: evs1) ++ evs2)%list, (S k).
    split; [done|]. split; [by eapply evolves_trans|]. split; [done|].
    split; [by apply Forall_app|].
    by rewrite filter_app, Hl1, Hcalls.
Qed.

(** With the driver at hand, [scrape_category] requests at most
    [max(max_pages, 1)] listing pages, each of them a planned URL and under
    its own role, whatever the budget. *)
Theorem scrape_category_requests base role maxp s :
  driver s = true →
  ∃ rows s' evs,
    scrape_category lib w base role maxp s = (Ok rows, s')
    ∧ trace s' = (trace s ++ evs)%list
    ∧ (length (filter is_listing_call evs)
       ≤ Z.to_nat (Z.max (max_pages s) 1))%nat
    ∧ ∀ u r, CallListing u r ∈ evs →
        r = role ∧ u ∈ paginate_urls lib (max_pages s) base.
Proof.
  intros Hd. unfold scrape_category. unfold_monad.
  set (urls := paginate_urls lib (max_pages s) base).
  destruct (scrape_pages_rows role maxp (ugc_profile_urls s) urls [] s Hd
              eq_refl ltac:(constructor))
    as (rows & s' & evs & k & Heq & Hev & _ & Hevs & Hcalls).
  exists rows, s', evs. split; [done|].
  split; [by destruct Hev as (_&_&_&_&_&_&_&?)|]. split.
  - rewrite Hcalls, length_fmap, length_take.
    rewrite <- (paginate_urls_length lib (max_pages s) base). fold urls. lia.
  - intros u r Hin.
    assert (Hf : CallListing u r ∈ filter is_listing_call evs)
      by (by apply list_elem_of_filter).
    rewrite Hcalls in Hf. apply list_elem_of_fmap in Hf as (u' & [= -> ->] & Hu).
    split; [done|]. eapply elem_of_sublist; [exact Hu|apply sublist_take].
Qed.

Lemma scrape_category_rows base role maxp s :
  driver s = true →
  ∃ rows s' evs,
    scrape_category lib w base role maxp s = (Ok rows, s')
    ∧ evolves s evs s'
    ∧ Forall (accepted_row role (ugc_profile_urls s)) rows
    ∧ Forall (event_of role) evs
    ∧ ((0 <= maxp)%Z → (Z.of_nat (length rows) <= maxp)%Z).
Proof.
  intros Hd. unfold scrape_category. unfold_monad.
  set (urls := paginate_urls lib (max_pages s) base).
  destruct (scrape_pages_rows role maxp (ugc_profile_urls s) urls [] s Hd
              eq_refl ltac:(constructor))
    as (rows & s' & evs & k & Heq & Hev & Hacc & Hevs & _).
  exists rows, s', evs. repeat (split; [done|]).
  intros Hmax.
  destruct (scrape_pages_budget w role maxp urls [] s)
    as (rows' & s'' & _ & _ & Heq' & Hle & _); [lia|done|cbn; lia|].
  rewrite Heq in Heq'. by injection Heq' as <- _.
Qed.

(** What a run does when an authenticated driver can be had. *)
Lemma run_summary s :
  driver s = true ∨ w_login w (trace s) = Ok tt →
  ∃ s' evs1 evs2,
    run lib w s = (Ok tt, s')
    ∧ trace s' = (trace s ++ evs1 ++ evs2)%list
    ∧ Forall (event_of "ugc") evs1
    ∧ Forall (event_of "video_editor") evs2
    ∧ Forall (accepted_row "ugc" (ugc_profile_urls s)) (ugc_rows s')
    ∧ Forall (accepted_row "video_editor" (ugc_profile_urls s))
             (video_rows s')
    ∧ ((0 <= max_profiles s)%Z →
       (Z.of_nat (length (ugc_rows s')) <= max_profiles s)%Z
       ∧ (Z.of_nat (length (video_rows s')) <= max_profiles s)%Z)
    ∧ files s' = files s ∧ max_profiles s' = max_profiles s
    ∧ ugc_profile_urls s' = ugc_profile_urls s.
Proof.
  intros Hlogin. unfold run. unfold bind at 1.
  destruct (get_authenticated_driver w s) as [r0 s0] eqn:Hg.
  pose proof (get_authenticated_driver_evolves w _ _ _ Hg) as Hev0.
  assert (r0 = Ok tt) as ->.
  { unfold get_authenticated_driver in Hg. destruct Hlogin as [Hd|Hl].
    - rewrite Hd in Hg. by injection Hg as <- _.
    - destruct (driver s); [by injection Hg as <- _|].
      rewrite Hl in Hg. by injection Hg as <- _. }
  pose proof (get_authenticated_driver_sets w _ _ Hg) as Hd0.
  destruct Hev0 as (Hp0&Hm0&_&_&Hs0&Hf0&_&Ht0). rewrite app_nil_r in Ht0.
  unfold_monad.
  destruct (scrape_category_rows UGC_URL "ugc" (max_profiles s0) s0 Hd0)
    as (rows1 & s1 & evs1 & -> & Hev1 & Hacc1 & Hevs1 & Hb1).
  set (s1' := set_ugc_rows rows1 s1).
  assert (Hd1 : driver s1' = true) by exact (evolves_driver _ _ _ Hev1 Hd0).
  destruct Hev1 as (Hp1&Hm1&_&_&Hs1&Hf1&_&Ht1).
  destruct (scrape_category_rows VIDEO_URL "video_editor" (max_profiles s1')
              s1' Hd1)
    as (rows2 & s2 & evs2 & -> & Hev2 & Hacc2 & Hevs2 & Hb2).
  destruct Hev2 as (Hp2&Hm2&Hu2&_&Hs2&Hf2&_&Ht2).
  eexists _, evs1, evs2. split; [reflexivity|]. cbn in *.
  split; [by rewrite Ht2, Ht1, Ht0, app_assoc|].
  split; [done|]. split; [done|].
  split; [by rewrite Hu2, <- Hs0|].
  split; [by rewrite <- Hs0, <- Hs1|].
  split; [|split; [congruence|split; [congruence|congruence]]].
  intros Hmax. rewrite Hu2. rewrite Hm0 in Hb1. rewrite Hm1, Hm0 in Hb2.
  split; [apply Hb1|apply Hb2]; lia.
Qed.

(** The plan of a category begins with its seed. *)
Lemma paginate_urls_head n seed :
  head (paginate_urls lib n seed) = Some seed.
Proof. unfold paginate_urls. by destruct (dict_get _ _). Qed.

(** The calls of the loop over the planned URLs, when there are any, begin
    with the listing request of the first planned URL. *)
Lemma scrape_pages_first_call role maxp urls rows s :
  driver s = true →
  ∃ rows' s' evs,
    scrape_pages w role maxp urls rows s = (Ok rows', s')
    ∧ trace s' = (trace s ++ evs)%list
    ∧ ∀ ev, head evs = Some ev →
        ∃ u, head urls = Some u ∧ ev = CallListing u role.
Proof.
  intros Hd. destruct urls as [|url rest].
  - exists rows, s, []. split; [done|]. by rewrite app_nil_r.
  - cbn [scrape_pages].
    destruct (maxp <=? Z.of_nat (length rows))%Z.
    { exists rows, s, []. split; [done|]. by rewrite app_nil_r. }
    unfold bind at 1.
    destruct (parse_search_page_returns w url role s Hd)
      as (page_rows & s1 & evs1 & -> & Hev1 & _).
    destruct (maxp <=? Z.of_nat (length (rows ++ page_rows)))%Z.
    { eexists _, s1, _. split; [reflexivity|].
      split; [by destruct Hev1 as (_&_&_&_&_&_&_&?)|].
      intros ev [= <-]. by exists url. }
    destruct (scrape_pages_returns w role maxp rest
                (rows ++ page_rows)%list s1 (evolves_driver _ _ _ Hev1 Hd))
      as (rows' & s' & evs2 & -> & Hev2).
    pose proof (evolves_trans _ _ _ _ _ Hev1 Hev2) as Hev.
    eexists rows', s', _. split; [done|].
    split; [by destruct Hev as (_&_&_&_&_&_&_&?)|].
    intros ev [= <-]. by exists url.
Qed.

(** The calls of the scrape of a category: listing requests of its own
    role and detail pages, the first of them the listing request of the
    seed. *)
Lemma scrape_category_calls base role maxp s :
  driver s = true →
  ∃ rows s' evs,
    scrape_category lib w base role maxp s = (Ok rows, s')
    ∧ evolves s evs s'
    ∧ Forall (event_of role) evs
    ∧ ∀ ev, head evs = Some ev → ev = CallListing base role.
Proof.
  intros Hd.
  destruct (scrape_category_rows base role maxp s Hd)
    as (rows & s' & evs & Heq & Hev & _ & Hevs & _).
  exists rows, s', evs. repeat (split; [done|]).
  unfold scrape_category, bind, gets in Heq.
  destruct (scrape_pages_first_call role maxp
              (paginate_urls lib (max_pages s) base) [] s Hd)
    as (rows' & s'' & evs' & Heq' & Ht' & Hfirst).
  rewrite Heq in Heq'. injection Heq' as <- <-.
  destruct Hev as (_&_&_&_&_&_&_&Ht). rewrite Ht in Ht'.
  apply app_inv_head in Ht' as <-.
  intros ev Hev. destruct (Hfirst ev Hev) as (u & Hu & ->).
  rewrite paginate_urls_head in Hu. by injection Hu as <-.
Qed.

(** The two phases of a run when an authenticated driver can be had:
    the scrape of [ugc] from the state with the driver, then, with its
    rows stored, the scrape of [video_editor]. *)
Lemma run_phases s :
  driver s = true ∨ w_login w (trace s) = Ok tt →
  ∃ s0 rows1 s1 evs1 rows2 s2 evs2,
    get_authenticated_driver w s = (Ok tt, s0)
    ∧ scrape_category lib w UGC_URL "ugc" (max_profiles s) s0
        = (Ok rows1, s1)
    ∧ trace s1 = (trace s ++ evs1)%list
    ∧ scrape_category lib w VIDEO_URL "video_editor" (max_profiles s)
        (set_ugc_rows rows1 s1) = (Ok rows2, s2)
    ∧ trace s2 = (trace s1 ++ evs2)%list
    ∧ run lib w s = (Ok tt, set_video_rows rows2 s2)
    ∧ Forall (event_of "ugc") evs1
    ∧ Forall (event_of "video_editor") evs2
    ∧ (∀ ev, head evs1 = Some ev → ev = CallListing UGC_URL "ugc")
    ∧ (∀ ev, head evs2 = Some ev →
         ev = CallListing VIDEO_URL "video_editor").
Proof.
  intros Hlogin. unfold run. unfold bind at 1.
  destruct (get_authenticated_driver w s) as [r0 s0] eqn:Hg.
  pose proof (get_authenticated_driver_evolves w _ _ _ Hg) as Hev0.
  assert (r0 = Ok tt) as ->.
  { unfold get_authenticated_driver in Hg. destruct Hlogin as [Hd|Hl].
    - rewrite Hd in Hg. by injection Hg as <- _.
    - destruct (driver s); [by injection Hg as <- _|].
      rewrite Hl in Hg. by injection Hg as <- _. }
  pose proof (get_authenticated_driver_sets w _ _ Hg) as Hd0.
  destruct Hev0 as (_&Hm0&_&_&_&_&_&Ht0). rewrite app_nil_r in Ht0.
  unfold_monad.
  destruct (scrape_category_calls UGC_URL "ugc" (max_profiles s0) s0 Hd0)
    as (rows1 & s1 & evs1 & Heq1 & Hev1 & Hevs1 & Hfirst1).
  rewrite Heq1.
  set (s1' := set_ugc_rows rows1 s1).
  assert (Hd1 : driver s1' = true) by exact (evolves_driver _ _ _ Hev1 Hd0).
  destruct Hev1 as (_&Hm1&_&_&_&_&_&Ht1).
  destruct (scrape_category_calls VIDEO_URL "video_editor"
              (max_profiles s1') s1' Hd1)
    as (rows2 & s2 & evs2 & Heq2 & Hev2 & Hevs2 & Hfirst2).
  rewrite Heq2.
  destruct Hev2 as (_&_&_&_&_&_&_&Ht2).
  assert (Hb1 : max_profiles s1' = max_profiles s)
    by (unfold s1'; cbn; congruence).
  rewrite Hm0 in Heq1. rewrite Hb1 in Heq2.
  exists s0, rows1, s1, evs1, rows2, s2, evs2.
  split; [done|]. split; [exact Heq1|].
  split; [by rewrite Ht1, Ht0|]. split; [exact Heq2|].
  split; [exact Ht2|]. by repeat split.
Qed.

(** A run scrapes the two categories one after the other.  With [s0] the
    state that holds the driver, the scrape of [ugc] runs from [s0] and
    makes the calls [evs1]; its rows are stored, and the scrape of
    [video_editor] runs from the state so reached and makes the calls
    [evs2]; the run ends there, so that its calls are [evs1] followed by
    [evs2].  No listing page of [video_editor] is requested in [evs1] and
    none of [ugc] in [evs2]; each part, when not empty, begins with the
    listing request of the seed of its category; and the run never calls
    the bio resolver. *)
Theorem run_scrapes_ugc_before_video s :
  driver s = true ∨ w_login w (trace s) = Ok tt →
  ∃ s0 rows1 s1 evs1 rows2 s2 evs2,
    get_authenticated_driver w s = (Ok tt, s0)
    ∧ scrape_category lib w UGC_URL "ugc" (max_profiles s) s0
        = (Ok rows1, s1)
    ∧ trace s1 = (trace s ++ evs1)%list
    ∧ scrape_category lib w VIDEO_URL "video_editor" (max_profiles s)
        (set_ugc_rows rows1 s1) = (Ok rows2, s2)
    ∧ trace s2 = (trace s1 ++ evs2)%list
    ∧ run lib w s = (Ok tt, set_video_rows rows2 s2)
    ∧ trace (snd (run lib w s)) = (trace s ++ evs1 ++ evs2)%list
    ∧ ugc_rows (snd (run lib w s)) = rows1
    ∧ Forall (event_of "ugc") evs1
    ∧ Forall (event_of "video_editor") evs2
    ∧ (∀ ev, head evs1 = Some ev → ev = CallListing UGC_URL "ugc")
    ∧ (∀ ev, head evs2 = Some ev →
         ev = CallListing VIDEO_URL "video_editor").
Proof.
  intros H.
  destruct (run_phases s H)
    as (s0 & rows1 & s1 & evs1 & rows2 & s2 & evs2
        & Hg & Heq1 & Ht1 & Heq2 & Ht2 & Hrun & He1 & He2 & Hf1 & Hf2).
  exists s0, rows1, s1, evs1, rows2, s2, evs2.
  repeat (split; [done|]). rewrite Hrun. cbn [snd].
  split.
  { change (trace (set_video_rows rows2 s2)) with (trace s2).
    by rewrite Ht2, Ht1, app_assoc. }
  split; [|done].
  change (ugc_rows (set_video_rows rows2 s2)) with (ugc_rows s2).
  destruct (scrape_category_returns lib w VIDEO_URL "video_editor"
              (max_profiles s) (set_ugc_rows rows1 s1))
    as (rows2' & s2' & evs2' & Heq2' & Hev2).
  { apply (get_authenticated_driver_sets w) in Hg.
    destruct (scrape_category_returns lib w UGC_URL "ugc" (max_profiles s)
                s0 Hg) as (? & ? & ? & Heq1' & Hev1).
    rewrite Heq1 in Heq1'. injection Heq1' as <- <-.
    exact (evolves_driver _ _ _ Hev1 Hg). }
  rewrite Heq2 in Heq2'. injection Heq2' as <- <-.
  by destruct Hev2 as (_&_&Hu&_).
Qed.

(** After a run, every row of [ugc_rows] has role [ugc] and every row of
    [video_rows] has role [video_editor]; every row has a non-empty
    profile URL and name, an email that is empty or valid, and a handle
    that is empty or accepted. *)
Theorem run_rows_are_accepted s :
  driver s = true ∨ w_login w (trace s) = Ok tt →
  ∃ s',
    run lib w s = (Ok tt, s')
    ∧ Forall (accepted_row "ugc" (ugc_profile_urls s)) (ugc_rows s')
    ∧ Forall (accepted_row "video_editor" (ugc_profile_urls s))
             (video_rows s').
Proof.
  intros H. destruct (run_summary s H)
    as (s' & evs1 & evs2 & ? & _ & _ & _ & ? & ? & _). eauto.
Qed.

(** After a run with a budget [max_profiles >= 0], each of the two lists
    holds at most [max_profiles] rows. *)
Theorem run_within_budget s :
  driver s = true ∨ w_login w (trace s) = Ok tt →
  (0 <= max_profiles s)%Z →
  ∃ s',
    run lib w s = (Ok tt, s')
    ∧ (Z.of_nat (length (ugc_rows s')) <= max_profiles s)%Z
    ∧ (Z.of_nat (length (video_rows s')) <= max_profiles s)%Z.
Proof.
  intros H Hmax. destruct (run_summary s H)
    as (s' & evs1 & evs2 & ? & _ & _ & _ & _ & _ & Hb & _).
  destruct (Hb Hmax). eauto.
Qed.

End Orchestration.

Lemma scrape_category_requests_witness :
  let w := Scenario.site [Scenario.card_both_roles]
                         Scenario.profile_both_roles "" in
  driver (Scenario.ready 2 10) = true
  ∧ ∃ rows s' evs,
      scrape_category Plain.lib w UGC_URL "ugc" 10 (Scenario.ready 2 10)
        = (Ok rows, s')
      ∧ trace s' = (trace (Scenario.ready 2 10) ++ evs)%list
      ∧ (length (filter is_listing_call evs) ≤ 2)%nat.
Proof.
  intros w. split; [reflexivity|].
  destruct (scrape_category_requests Plain.lib w UGC_URL "ugc" 10
              (Scenario.ready 2 10))
    as (rows & s' & evs & Heq & Ht & Hlen & _); [reflexivity|].
  exists rows, s', evs. split; [exact Heq|]. split; [exact Ht|exact Hlen].
Defined.

Lemma run_scrapes_ugc_before_video_witness :
  let w := Scenario.site [Scenario.card_both_roles]
                         Scenario.profile_both_roles "" in
  w_login w (trace (init 1 10)) = Ok tt
  ∧ ∃ evs1 evs2,
      trace (snd (run Plain.lib w (init 1 10))) = (evs1 ++ evs2)%list
      ∧ Forall (event_of "ugc") evs1
      ∧ Forall (event_of "video_editor") evs2
      ∧ (∀ ev, head evs2 = Some ev →
           ev = CallListing VIDEO_URL "video_editor").
Proof.
  intros w. split; [reflexivity|].
  destruct (run_scrapes_ugc_before_video Plain.lib w (init 1 10))
    as (s0 & rows1 & s1 & evs1 & rows2 & s2 & evs2
        & _ & _ & _ & _ & _ & _ & Ht & _ & He1 & He2 & _ & Hf2);
    [right; reflexivity|].
  exists evs1, evs2. split; [exact Ht|]. split; [exact He1|].
  split; [exact He2|exact Hf2].
Defined.

Lemma run_rows_are_accepted_witness :
  let w := Scenario.site [Scenario.card_both_roles]
                         Scenario.profile_both_roles "" in
  w_login w (trace (init 1 10)) = Ok tt
  ∧ ∃ s',
      run Plain.lib w (init 1 10) = (Ok tt, s')
      ∧ Forall (accepted_row "ugc" ∅) (ugc_rows s')
      ∧ Forall (accepted_row "video_editor" ∅) (video_rows s').
Proof.
  intros w. split; [reflexivity|].
  apply (run_rows_are_accepted Plain.lib w (init 1 10)).
  right. reflexivity.
Defined.

Lemma run_within_budget_witness :
  let w := Scenario.site [Scenario.card_both_roles; Scenario.card_both_roles]
                         Scenario.profile_both_roles "" in
  w_login w (trace (init 3 1)) = Ok tt ∧ (0 <= max_profiles (init 3 1))%Z
  ∧ ∃ s',
      run Plain.lib w (init 3 1) = (Ok tt, s')
      ∧ (Z.of_nat (length (ugc_rows s')) <= 1)%Z
      ∧ (Z.of_nat (length (video_rows s')) <= 1)%Z.
Proof.
  intros w. split; [reflexivity|]. split; [cbn; lia|].
  apply (run_within_budget Plain.lib w (init 3 1)).
  - right. reflexivity.
  - cbn. lia.
Defined.

(** ** Enrichment and export, continued *)

Ltac sstep :=
  cbn -[enrich_with_instagram_emails with_email select_columns].

Section EnrichmentFacts.

Context (w : World).

(** When no row lacks an email while holding a handle, the enrichment
    loop is a no-op: it returns the rows as they are, calls nothing and
    leaves the scraper untouched. *)
Theorem enrich_without_work_is_noop rows s :
  Forall (fun r => email r ≠ "" ∨ instagram_handle r = "") rows →
  enrich_with_instagram_emails w rows s = (Ok rows, s).
Proof.
  induction 1 as [|row rest Hrow _ IH]; [done|].
  cbn [enrich_with_instagram_emails].
  assert (Hneed : negb (Str.truthy (email row))
                  && Str.truthy (instagram_handle row) = false).
  { destruct Hrow as [He|Hh].
    - by destruct (email row).
    - rewrite Hh. apply andb_false_r. }
  rewrite Hneed. unfold bind, ret. by rewrite IH.
Qed.

(** An enriched row is still an accepted row: the enrichment changes at
    most the email, and only to a valid one. *)
Lemma enriched_accepted role seen r r' :
  enriched w r r' → accepted_row role seen r → accepted_row role seen r'.
Proof.
  unfold enriched. destruct (needs_bio r); [|by intros ->].
  intros (s & found & s' & _ & Hvalid & ->) Hacc.
  destruct (Str.truthy found) eqn:Ht; [|done].
  destruct Hacc as [(Hr & Hu & Hn & Hh & _ & Hs) Hhandle].
  split; [|exact Hhandle]. split; [exact Hr|]. split; [exact Hu|].
  split; [exact Hn|]. split; [exact Hh|]. split; [|exact Hs].
  cbn. destruct Hvalid as [->|Hv]; [done|by right].
Qed.

Lemma Forall2_enriched_accepted role seen rows rows' :
  Forall2 (enriched w) rows rows' →
  Forall (accepted_row role seen) rows →
  Forall (accepted_row role seen) rows'.
Proof.
  induction 1 as [|r r' rows rows' Hen _ IH]; [done|].
  intros [Hr Hrows]%Forall_cons. constructor; [|by apply IH].
  by eapply enriched_accepted.
Qed.

Lemma exported_lines role seen rows :
  Forall (accepted_row role seen) rows →
  Forall (exported_line role) (exported rows).
Proof.
  intros Hrows. unfold exported. apply Forall_fmap, Forall_forall.
  intros r [Hemail Hin]%list_elem_of_filter.
  rewrite Forall_forall in Hrows.
  destruct (Hrows r Hin) as [(Hr & Hu & Hn & _ & He & _) _].
  split; [done|]. split; [by destruct He|done].
Qed.

(** [save_csv] calls nothing but the bio resolver, and calls it for the
    rows that lack an email and hold a handle: those of the first category
    in order, then those of the second. *)
Theorem save_csv_calls s :
  ∃ s',
    save_csv w s = (Ok tt, s')
    ∧ trace s' = (trace s ++ bio_calls (ugc_rows s)
                    ++ bio_calls (video_rows s))%list.
Proof.
  unfold save_csv, export. unfold_monad.
  destruct (ugc_rows s) as [|u0 us] eqn:Hugc.
  - destruct (video_rows s) as [|v0 vs] eqn:Hvid; sstep.
    { exists s. by rewrite app_nil_r. }
    rewrite Hvid. sstep.
    destruct (enrich_with_instagram_emails_returns w (v0 :: vs) s)
      as (v' & s2 & Hv & Hev2 & Hrelv).
    rewrite Hv. sstep.
    destruct Hev2 as (_&_&Hu2&_&_&_&_&Ht2).
    rewrite Hu2, Hugc. sstep.
    apply Forall2_cons_inv_l in Hrelv as (v0' & vs' & _ & _ & ->). sstep.
    eexists. split; [reflexivity|]. exact Ht2.
  - sstep.
    destruct (enrich_with_instagram_emails_returns w (u0 :: us) s)
      as (u' & s1 & Hu & Hev1 & Hrelu).
    rewrite Hu. sstep.
    apply Forall2_cons_inv_l in Hrelu as (u0' & us' & _ & _ & ->).
    destruct Hev1 as (_&_&_&Hv1&_&_&_&Ht1).
    rewrite Hv1.
    destruct (video_rows s) as [|v0 vs] eqn:Hvid; sstep.
    + rewrite Hv1. sstep. eexists. split; [reflexivity|].
      cbn. by rewrite Ht1, app_nil_r.
    + set (s1' := set_ugc_rows (u0' :: us') s1) in *.
      destruct (enrich_with_instagram_emails_returns w (v0 :: vs) s1')
        as (v' & s2 & Hv & Hev2 & Hrelv).
      rewrite Hv. sstep.
      destruct Hev2 as (_&_&Hu2&_&_&_&_&Ht2).
      rewrite Hu2. sstep.
      apply Forall2_cons_inv_l in Hrelv as (v0' & vs' & _ & _ & ->). sstep.
      eexists. split; [reflexivity|]. cbn.
      rewrite Ht2. cbn. by rewrite Ht1, <- app_assoc.
Qed.

End EnrichmentFacts.

Lemma enrich_without_work_is_noop_witness :
  let w := Scenario.site [] Scenario.profile_both_roles "x@y.io" in
  let rows := [mkRow "u" "@u" "U" "" "u@u.io" "ugc" "uu";
               mkRow "v" "@v" "V" "" "" "ugc" ""] in
  enrich_with_instagram_emails w rows (init 1 10) = (Ok rows, init 1 10).
Proof.
  intros w rows. apply (enrich_without_work_is_noop w rows (init 1 10)).
  constructor; [by left|]. constructor; [by right|]. constructor.
Defined.

(** ** From the run to the files *)

Section EndToEnd.

Context (lib : UrlLib) (w : World).

(** When an authenticated driver can be had, [run] followed by
    [save_csv] completes; it writes the file of a category exactly when the
    category holds rows, [ugc_creators.csv] first.  Every line of a file
    carries the role of its category, an email that [validate_email]
    accepts, and a non-empty profile URL and name. *)
Theorem run_then_save_csv_exports s :
  driver s = true ∨ w_login w (trace s) = Ok tt →
  ∃ s1 s2 ugc video,
    run lib w s = (Ok tt, s1) ∧ save_csv w s1 = (Ok tt, s2)
    ∧ files s2 =
        (files s
         ++ (if nonempty (ugc_rows s1) then [("ugc_creators.csv", ugc)]
             else [])
         ++ (if nonempty (video_rows s1) then [("video_editors.csv", video)]
             else []))%list
    ∧ Forall (exported_line "ugc") ugc
    ∧ Forall (exported_line "video_editor") video.
Proof.
  intros Hlogin.
  destruct (run_summary lib w s Hlogin)
    as (s1 & evs1 & evs2 & Hrun & _ & _ & _ & Hu & Hv & _ & Hf & _).
  destruct (save_csv_returns w s1) as (s2 & Hsave & Hru & Hrv & Hfiles).
  rewrite !with_email_select_columns, Hf in Hfiles.
  exists s1, s2, (exported (ugc_rows s2)), (exported (video_rows s2)).
  repeat (split; [done|]). split.
  - eapply exported_lines, Forall2_enriched_accepted; [exact Hru|exact Hu].
  - eapply exported_lines, Forall2_enriched_accepted; [exact Hrv|exact Hv].
Qed.

End EndToEnd.

Lemma run_then_save_csv_exports_witness :
  let w := Scenario.site [Scenario.card_both_roles]
                         Scenario.profile_both_roles "" in
  w_login w (trace (init 1 10)) = Ok tt
  ∧ ∃ s1 s2 ugc video,
      run Plain.lib w (init 1 10) = (Ok tt, s1)
      ∧ save_csv w s1 = (Ok tt, s2)
      ∧ files s2 =
          (files (init 1 10)
           ++ (if nonempty (ugc_rows s1) then [("ugc_creators.csv", ugc)]
               else [])
           ++ (if nonempty (video_rows s1)
               then [("video_editors.csv", video)] else []))%list
      ∧ Forall (exported_line "ugc") ugc
      ∧ Forall (exported_line "video_editor") video.
Proof.
  intros w. split; [reflexivity|].
  apply (run_then_save_csv_exports Plain.lib w (init 1 10)).
  right. reflexivity.
Defined.

(** ** The login session *)

Section SessionFacts.

Context (chrome : nat → res Session.Browser).

Lemma login_form_logged_in b :
  Session.login_form b = true →
  Session.is_logged_in (Session.page_after_submit b) = true.
Proof.
  unfold Session.login_form.
  destruct (Session.first_present b _) as [[]|]; try done.
  destruct (Session.find_password b); [|done].
  destruct (Session.fill_form b); [|done].
  by destruct (if Session.first_clickable b _ then _ else _).
Qed.

Lemma login_returns_logged_in s d s' :
  Session.login chrome s = (Session.Return d, s') →
  Session.driver s' = Some d ∧ Session.logged_in s' = true.
Proof.
  unfold Session.login. destruct (negb _ || negb _); [done|].
  destruct (chrome (Session.launches s)) as [b|]; [|done].
  destruct (Session.load_cookies b); [by intros [= <- <-]|].
  destruct (Session.get_login b); [|done].
  destruct (Session.login_form b); [|done]. by intros [= <- <-].
Qed.

(** Without an email or a password [login] raises [ValueError] before any
    browser is launched and leaves the session as it was.  When [login]
    returns, it returns the browser it has just launched, the session
    holds that browser and is logged in, and either the cookies or the
    login form led to a page on which [is_logged_in] holds.  When [login]
    raises after the launch, the session keeps its [logged_in] flag. *)
Theorem login_outcomes s :
  (Session.truthy (Session.email s) = false
   ∨ Session.truthy (Session.password s) = false →
   Session.login chrome s = (Session.Throw Session.ValueError, s))
  ∧ (∀ d s', Session.login chrome s = (Session.Return d, s') →
       fst d = Session.launches s ∧ chrome (fst d) = Ok (snd d)
       ∧ Session.driver s' = Some d ∧ Session.logged_in s' = true
       ∧ (Session.load_cookies (snd d) = true
          ∧ Session.is_logged_in (Session.page_after_cookies (snd d)) = true
          ∨ Session.load_cookies (snd d) = false
            ∧ Session.is_logged_in (Session.page_after_submit (snd d))
              = true))
  ∧ (∀ e s', Session.login chrome s = (Session.Throw e, s') →
       e ≠ Session.ValueError →
       Session.logged_in s' = Session.logged_in s
       ∧ Session.launches s' = S (Session.launches s)).
Proof.
  unfold Session.login. split; [|split].
  - intros [-> | ->]; [done|]. by rewrite orb_true_r.
  - intros d s'.
    destruct (negb _ || negb _); [done|].
    destruct (chrome (Session.launches s)) as [b|] eqn:Hb; [|done].
    destruct (Session.load_cookies b) eqn:Hc.
    { intros [= <- <-]. cbn. repeat (split; [done|]). left. split; [done|].
      unfold Session.load_cookies in Hc.
      destruct (Session.cookies_file b) as [[]|]; try done.
      destruct (Session.get_home b); [|done].
      by destruct (Session.refresh b). }
    destruct (Session.get_login b); [|done].
    destruct (Session.login_form b) eqn:Hf; [|done].
    intros [= <- <-]. cbn. repeat (split; [done|]). right.
    split; [done|]. by apply login_form_logged_in.
  - intros e s'.
    destruct (negb _ || negb _); [by intros [= <- _]|].
    destruct (chrome (Session.launches s)) as [b|];
      [|by intros [= _ <-]].
    destruct (Session.load_cookies b); [done|].
    destruct (Session.get_login b); [|by intros [= _ <-]].
    destruct (Session.login_form b); [done|]. by intros [= _ <-].
Qed.

(** Whatever sequence of [login], [get_authenticated_driver] and [close]
    is called on a fresh session, the session is logged in only while it
    holds a browser, and the browser it holds is one that was launched for
    it. *)
Theorem session_invariant em pw env_em env_pw cs :
  let s := Session.after_calls chrome (Session.init em pw env_em env_pw) cs in
  (Session.logged_in s = true → is_Some (Session.driver s))
  ∧ (∀ n b, Session.driver s = Some (n, b) →
       (n < Session.launches s)%nat ∧ chrome n = Ok b).
Proof.
  set (inv := fun s : Session.T =>
         (Session.logged_in s = true → is_Some (Session.driver s))
         ∧ (∀ n b, Session.driver s = Some (n, b) →
              (n < Session.launches s)%nat ∧ chrome n = Ok b)).
  assert (Hlogin : ∀ s, inv s → inv (snd (Session.login chrome s))).
  { intros s [H1 H2]. unfold Session.login.
    destruct (negb _ || negb _); [by split|].
    destruct (chrome (Session.launches s)) as [b|] eqn:Hb.
    - assert (Hnew : inv (Session.mkT (Session.email s) (Session.password s)
                            (Some (Session.launches s, b)) true
                            (S (Session.launches s)))).
      { split; cbn; [by eauto|]. intros n b' [= <- <-]. split; [lia|done]. }
      assert (Hkeep : inv (Session.mkT (Session.email s) (Session.password s)
                             (Some (Session.launches s, b))
                             (Session.logged_in s)
                             (S (Session.launches s)))).
      { split; cbn; [by eauto|]. intros n b' [= <- <-]. split; [lia|done]. }
      destruct (Session.load_cookies b); [done|].
      destruct (Session.get_login b); [|done].
      by destruct (Session.login_form b).
    - split; cbn; [done|]. intros n b Hd.
      destruct (H2 n b Hd). split; [lia|done]. }
  assert (Hstep : ∀ s c, inv s → inv (Session.after_call chrome s c)).
  { intros s [] Hs; cbn [Session.after_call].
    - by apply Hlogin.
    - unfold Session.get_authenticated_driver.
      destruct (Session.driver s) as [d|]; [|by apply Hlogin].
      destruct (Session.logged_in s); [done|by apply Hlogin].
    - unfold Session.close. destruct (Session.driver s) as [[n b]|]; [|done].
      destruct (Session.quit b); [|done]. by split. }
  intros s. subst s. unfold Session.after_calls.
  assert (Hinit : inv (Session.init em pw env_em env_pw)) by (by split).
  revert Hinit. generalize (Session.init em pw env_em env_pw).
  induction cs as [|c cs IH]; intros s0 Hs0; [done|].
  cbn [foldl]. by apply IH, Hstep.
Qed.

(** Once [get_authenticated_driver] has returned a browser, calling it
    again returns the same browser and changes nothing: no second launch
    and no second login. *)
Theorem get_authenticated_driver_cached s d s' :
  Session.get_authenticated_driver chrome s = (Session.Return d, s') →
  Session.get_authenticated_driver chrome s' = (Session.Return d, s').
Proof.
  unfold Session.get_authenticated_driver at 1.
  assert (Hlogin : Session.login chrome s = (Session.Return d, s') →
            Session.get_authenticated_driver chrome s'
            = (Session.Return d, s')).
  { intros H. destruct (login_returns_logged_in s d s' H) as [Hd Hl].
    unfold Session.get_authenticated_driver. by rewrite Hd, Hl. }
  destruct (Session.driver s) as [d0|] eqn:Hd; [|done].
  destruct (Session.logged_in s) eqn:Hl; [|done].
  intros [= <- <-]. unfold Session.get_authenticated_driver.
  by rewrite Hd, Hl.
Qed.

(** When [close] returns, the session holds no browser and is logged
    out, no browser was launched, a second [close] changes nothing, and
    the next [get_authenticated_driver] is a full [login].  When
    [driver.quit()] raises, the session is left as it was. *)
Theorem close_resets_session s :
  (∀ s', Session.close s = (Session.Return tt, s') →
     Session.driver s' = None
     ∧ (is_Some (Session.driver s) → Session.logged_in s' = false)
     ∧ (Session.driver s = None → s' = s)
     ∧ Session.launches s' = Session.launches s
     ∧ Session.close s' = (Session.Return tt, s')
     ∧ Session.get_authenticated_driver chrome s'
       = Session.login chrome s')
  ∧ (∀ e s', Session.close s = (Session.Throw e, s') →
       s' = s ∧ is_Some (Session.driver s)).
Proof.
  unfold Session.close. split.
  - intros s'. destruct (Session.driver s) as [[n b]|] eqn:Hd.
    + destruct (Session.quit b); [|done]. intros [= <-]. cbn.
      by repeat split.
    + intros [= <-]. rewrite Hd. split; [done|].
      split; [by intros [? ?]|]. split; [done|]. split; [done|].
      split; [done|].
      unfold Session.get_authenticated_driver. by rewrite Hd.
  - intros e s'. destruct (Session.driver s) as [[n b]|]; [|done].
    destruct (Session.quit b); [done|]. intros [= _ <-]. by eauto.
Qed.

End SessionFacts.

Lemma get_authenticated_driver_cached_witness :
  let s1 := snd (Session.get_authenticated_driver SessionScenario.chrome
                   SessionScenario.session) in
  let s2 := snd (Session.get_authenticated_driver SessionScenario.chrome s1) in
  Session.get_authenticated_driver SessionScenario.chrome s1
    = (Session.Return (1%nat, SessionScenario.browser_with_cookies), s2)
  ∧ Session.get_authenticated_driver SessionScenario.chrome s2
    = (Session.Return (1%nat, SessionScenario.browser_with_cookies), s2).
Proof.
  intros s1 s2.
  assert (H : Session.get_authenticated_driver SessionScenario.chrome s1
              = (Session.Return (1%nat, SessionScenario.browser_with_cookies),
                 s2)) by reflexivity.
  split; [exact H|].
  exact (get_authenticated_driver_cached SessionScenario.chrome s1 _ s2 H).
Defined.

(** [is_logged_in] answers [True] as soon as one of the five indicators is
    found, also on a login page; without any indicator it answers [False]
    on every page whose URL mentions [login] in any letter case; and it
    answers [False] whenever the URL cannot be read, whatever the page
    holds. *)
Theorem is_logged_in_cases p :
  (∀ url, Session.current_url p = Ok url →
     Session.first_indicator p Session.logged_in_indicators = Some true →
     Session.is_logged_in p = true)
  ∧ (∀ url, Session.current_url p = Ok url →
       (∀ l, l ∈ Session.logged_in_indicators →
          Session.find_element p l = Raise NoSuchElementException) →
       Str.contains "login" (Str.lower url) = true →
       Session.is_logged_in p = false)
  ∧ (∀ e, Session.current_url p = Raise e → Session.is_logged_in p = false).
Proof.
  unfold Session.is_logged_in. split; [|split].
  - intros url -> Hi. by rewrite Hi.
  - intros url -> Hmiss Hlogin.
    assert (Hnone : Session.first_indicator p Session.logged_in_indicators
                    = None).
    { revert Hmiss. generalize Session.logged_in_indicators.
      induction l as [|l ls IH]; intros Hmiss; [done|]. cbn.
      rewrite (Hmiss l) by (by left). apply IH. intros l' Hl'.
      apply Hmiss. by right. }
    by rewrite Hnone, Hlogin.
  - by intros e ->.
Qed.

(** ** Further facts about the three calls to the sites *)

Section SiteCalls.

Context (w : World).

(** The bio resolver never raises and records exactly one call; what it
    returns is empty or an email that [validate_email] accepts.  For an
    empty handle, and whenever the Instagram browser is already at hand,
    it changes nothing else in the scraper: in particular no second browser
    is launched. *)
Theorem fetch_instagram_email_selenium_safe handle s :
  ∃ found s',
    fetch_instagram_email_selenium w handle s = (Ok found, s')
    ∧ trace s' = (trace s ++ [CallBio handle])%list
    ∧ (found = "" ∨ validate_email found = true)
    ∧ (handle = "" → found = "")
    ∧ ((handle = "" ∨ instagram_driver s = true) →
       s' = log_call (CallBio handle) s).
Proof.
  destruct (fetch_instagram_email_selenium_returns w handle s)
    as (found & s' & Heq & Hev & Hvalid).
  exists found, s'. split; [done|].
  split; [by destruct Hev as (_&_&_&_&_&_&_&?)|]. split; [done|].
  revert Heq. unfold fetch_instagram_email_selenium. unfold_monad.
  set (s0 := log_call (CallBio handle) s).
  destruct (Str.truthy handle) eqn:Ht; cbn [negb].
  - intros Heq. split; [by intros ->|].
    intros [->|Hd]; [done|]. revert Heq.
    unfold get_instagram_driver.
    assert (Hd0 : instagram_driver s0 = true) by apply Hd. rewrite Hd0.
    destruct (w_instagram w (trace s0) _) as [src|]; [|by intros [= _ <-]].
    destruct (Re.search_group0 EMAIL_REGEX src) as [e|];
      [|by intros [= _ <-]].
    by destruct (validate_email e); intros [= _ <-].
  - by intros [= <- <-].
Qed.

(** The role is confirmed only on the evidence of the detail page: when
    [extract_instagram_from_profile] is called with an expected role and
    answers [True], the page has loaded and its heading, trimmed, passes
    [validate_heading_for_role] for that role. *)
Theorem role_confirmation_is_sound url role s h :
  Str.truthy role = true →
  fst (extract_instagram_from_profile w url (Some role) s) = Ok (h, true) →
  let page := w_profile w (trace s ++ [CallProfile url])%list url in
  pp_load page = Ok tt
  ∧ ∃ t, pp_heading page = Ok t
         ∧ validate_heading_for_role (Str.strip t) role = true.
Proof.
  intros Hrole. unfold extract_instagram_from_profile. unfold_monad.
  set (s0 := log_call (CallProfile url) s).
  destruct (get_authenticated_driver w s0) as [r s1] eqn:Hg.
  pose proof (get_authenticated_driver_evolves w _ _ _ Hg) as Hev.
  destruct Hev as (_&_&_&_&_&_&_&Ht). rewrite app_nil_r in Ht.
  destruct r as [[]|]; [|done]. rewrite Ht.
  change (trace s0) with (trace s ++ [CallProfile url])%list.
  cbv zeta. set (page := w_profile w _ url).
  unfold profile_page_result, heading_check, role_given. rewrite Hrole.
  destruct (pp_load page) as [[]|]; [|done]. cbn [res_bind].
  destruct (pp_heading page) as [t|[]]; cbn [res_bind]; try done.
  - destruct (validate_heading_for_role (Str.strip t) role) eqn:Hv;
      cbn [negb res_bind]; [|done].
    intros _. split; [done|]. by exists t.
  - destruct (pp_scroll page); [|done]. cbn [res_bind].
    destruct (pp_anchors page) as [elems|]; [|done].
    by destruct (first_handle elems).
Qed.

(** The calls of [parse_search_page]: its own, then one detail page for
    each of some candidates of the page. *)
Lemma parse_search_page_events url role s :
  driver s = true →
  ∃ ds,
    trace (snd (parse_search_page w url role s)) =
      (trace s ++ CallListing url role ::
         ((fun d => CallProfile (profile_url d)) <$> ds))%list
    ∧ Forall (candidate_row role (ugc_profile_urls s)) ds.
Proof.
  intros Hd.
  set (page := w_listing w (trace s ++ [CallListing url role])%list url).
  destruct (lp_load page) as [[]|e] eqn:Hload.
  - exists (card_data_list role (ugc_profile_urls s) (find_cards page)).
    split; [by apply parse_search_page_calls|].
    apply card_data_list_sound.
  - exists []. split; [|constructor].
    unfold parse_search_page. unfold_monad.
    set (s0 := log_call (CallListing url role) s) in *.
    assert (Hd0 : driver s0 = true) by apply Hd.
    rewrite (get_authenticated_driver_ready w s0 Hd0).
    change (w_listing w (trace s0) url) with page. by rewrite Hload.
Qed.

(** While the [video_editor] category is parsed, a profile URL that is in
    [ugc_profile_urls] is neither requested nor returned. *)
Theorem parse_search_page_skips_seen url s u :
  driver s = true → u ∈ ugc_profile_urls s →
  ∃ rows s' evs,
    parse_search_page w url "video_editor" s = (Ok rows, s')
    ∧ trace s' = (trace s ++ evs)%list
    ∧ (CallProfile u ∉ evs)
    ∧ Forall (fun r => profile_url r ≠ u) rows.
Proof.
  intros Hd Hu.
  destruct (parse_search_page_accepted w url "video_editor" s Hd)
    as (rows & s' & Heq & Hacc & _).
  destruct (parse_search_page_events url "video_editor" s Hd)
    as (ds & Ht & Hds).
  rewrite Heq in Ht. cbn [snd] in Ht.
  eexists rows, s', _. split; [done|]. split; [exact Ht|]. split.
  - intros Hin. apply elem_of_cons in Hin as [Hin|Hin]; [done|].
    apply list_elem_of_fmap in Hin as (d & [= ->] & Hd').
    rewrite Forall_forall in Hds.
    destruct (Hds d Hd') as (_ & _ & _ & _ & _ & Hseen). by apply Hseen.
  - eapply Forall_impl; [exact Hacc|].
    intros r [(_ & _ & _ & _ & _ & Hseen) _] Hru.
    apply Hseen; [done|]. by rewrite Hru.
Qed.

End SiteCalls.

Lemma role_confirmation_is_sound_witness :
  let w := Scenario.site [] Scenario.profile_both_roles "" in
  Str.truthy "ugc" = true
  ∧ fst (extract_instagram_from_profile w Scenario.jane_url (Some "ugc")
           (init 1 10)) = Ok ("", true)
  ∧ ∃ t, pp_heading Scenario.profile_both_roles = Ok t
         ∧ validate_heading_for_role (Str.strip t) "ugc" = true.
Proof.
  intros w. split; [reflexivity|]. split; [reflexivity|].
  apply (role_confirmation_is_sound w Scenario.jane_url "ugc" (init 1 10) "");
    reflexivity.
Defined.

Lemma parse_search_page_skips_seen_witness :
  let w := Scenario.site [Scenario.card_both_roles]
                         Scenario.profile_both_roles "" in
  let s := mkScraper 1 10 [] [] {[Scenario.jane_url]} true false [] [] in
  driver s = true ∧ Scenario.jane_url ∈ ugc_profile_urls s
  ∧ ∃ rows s' evs,
      parse_search_page w VIDEO_URL "video_editor" s = (Ok rows, s')
      ∧ trace s' = (trace s ++ evs)%list
      ∧ (CallProfile Scenario.jane_url ∉ evs).
Proof.
  intros w s.
  assert (Hin : Scenario.jane_url ∈ ugc_profile_urls s)
    by (subst s; cbn; set_solver).
  split; [reflexivity|]. split; [exact Hin|].
  destruct (parse_search_page_skips_seen w VIDEO_URL s Scenario.jane_url)
    as (rows & s' & evs & Heq & Ht & Hno & _); [reflexivity|exact Hin|].
  exists rows, s', evs. split; [exact Heq|]. split; [exact Ht|exact Hno].
Defined.
